(** * Dashboard version diff and restore: the ASCII formatter, the printer and
    the version store of [pkg/services/sqlstore], as Rocq definitions, with
    the properties of their specification. *)

From Stdlib Require Import ZArith Lia.
From stdpp Require Import base option list strings sorting gmap pretty.

Set Warnings "-register-all".

Local Open Scope string_scope.
Local Open Scope list_scope.
Local Open Scope Z_scope.

(** ** Go values *)

(** A Go [int] is 64 bits wide; arithmetic on it wraps around. *)
Definition int_wrap (z : Z) : Z := (z + 2 ^ 63) `mod` 2 ^ 64 - 2 ^ 63.

Definition int_min : Z := - 2 ^ 63.
Definition int_max : Z := 2 ^ 63 - 1.

(** The numbers held in an [interface{}]: a [float64] decoded from JSON text,
    or an [int]/[int64] stored by the program.  Their arithmetic is never
    inspected by this code, only their rendering by the [fmt] verbs and their
    equality, so they are kept behind an interface, together with the JSON
    text of a [time.Time]. *)
Class GoNumber := {
  number : Type;
  number_eq_dec :: EqDecision number;
  (** [fmt]'s [%v] and [%#v], which agree on numbers *)
  number_text : number -> string;
  (** [fmt]'s [%T] *)
  number_type : number -> string;
  (** the number a Go integer becomes when it is stored in a document *)
  number_of_int : Z -> number;
  number_of_int_inj : forall x y, number_of_int x = number_of_int y -> x = y;
  (** the text [encoding/json] writes for an instant, given in nanoseconds *)
  time_text : Z -> string
}.

(** [strconv.Itoa] *)
Definition Itoa (i : Z) : string := pretty i.

(** Integers as numbers: the instance used to run the definitions. *)
Definition IntNumber : GoNumber :=
  {| number := Z;
     number_eq_dec := Z.eq_dec;
     number_text := Itoa;
     number_type := fun _ => "float64";
     number_of_int := fun z => z;
     number_of_int_inj := fun x y H => H;
     time_text := Itoa |}.

(** What a run-time panic reports. *)
Inductive panic : Type :=
| IndexOutOfRange
| SliceBoundsOutOfRange
| NilDereference
| TypeAssertion
| PanicValue (v : string).

(** A call that returns or panics. *)
Inductive call (A : Type) : Type :=
| Returns (a : A)
| Panicked (p : panic).
Arguments Returns {A} a.
Arguments Panicked {A} p.

Section Engine.
Context `{GoNumber}.

(** The universal value model: what an [interface{}] holds once a JSON
    document has been decoded.  A [map[string]interface{}] is kept as the list
    of its members in the order one iteration over the map happens to visit
    them; Go leaves that order unspecified, and a map holds a key once. *)
Inductive value : Type :=
| VNil
| VBool (b : bool)
| VNumber (n : number)
| VString (s : string)
| VSlice (items : list value)
| VMap (members : list (string * value)).

(** [m[key]] with the [ok] flag. *)
Fixpoint map_get (m : list (string * value)) (key : string) : option value :=
  match m with
  | [] => None
  | (k, v) :: m' => if decide (k = key) then Some v else map_get m' key
  end.

(** [m[key]]: a missing key reads as [nil]. *)
Definition map_index (m : list (string * value)) (key : string) : value :=
  default VNil (map_get m key).

(** [m[key] = v] *)
Fixpoint map_set (m : list (string * value)) (key : string) (v : value)
  : list (string * value) :=
  match m with
  | [] => [(key, v)]
  | (k, w) :: m' =>
      if decide (k = key) then (k, v) :: m' else (k, w) :: map_set m' key v
  end.

(** [len(x)] as an [int] *)
Definition len {A} (l : list A) : Z := Z.of_nat (length l).

(** [sortedKeys]: the keys of the map, then [sort.Strings], which arranges
    them in ascending byte-wise order.  The order on strings is total and
    antisymmetric, so every sorting algorithm returns the same list. *)
Definition sort_Strings (keys : list string) : list string :=
  merge_sort String.le keys.

Definition sortedKeys (m : list (string * value)) : list string :=
  sort_Strings m.*1.

(** ** The delta model of the diff library *)

Inductive Position : Type :=
| Name (s : string)
| Index (i : Z).

Global Instance Position_eq_dec : EqDecision Position.
Proof. solve_decision. Defined.

Definition Position_String (p : Position) : string :=
  match p with
  | Name s => s
  | Index i => Itoa i
  end.

(** [Object], [Array], [Added], [Modified] and [TextDiff] carry a
    post-position, [Deleted] a pre-position and [Moved] both.  The patch list
    of a [TextDiff] and the nested delta of a [Moved] are read nowhere in
    this code and are left out. *)
Inductive Delta : Type :=
| Object (Position : Position) (Deltas : list Delta)
| Array (Position : Position) (Deltas : list Delta)
| Added (Position : Position) (Value : value)
| Modified (Position : Position) (OldValue NewValue : value)
| TextDiff (Position : Position) (OldValue NewValue : value)
| Deleted (Position : Position) (Value : value)
| Moved (PrePosition PostPosition : Position) (Value : value).

(** A [diff.Diff] is an interface value: [nil], or a list of deltas. *)
Inductive Diff : Type :=
| nilDiff
| mkDiff (deltas : list Delta).

(** An [error] is a value made on the spot by [errors.New] or [fmt.Errorf],
    known by its message, one of the package-level error variables, which are
    told apart by identity, or an error handed up by the database driver. *)
Inductive error : Type :=
| errorString (msg : string)
| ErrDashboardNotFound
| ErrDashboardVersionNotFound
| ErrNoVersionsForDashboardId
| ErrUnsupportedDiffType
| ErrDriver (msg : string).

Definition errors_New (msg : string) : error := errorString msg.

(** ** The ASCII formatter *)

Record AsciiFormatterConfig : Type := {
  ShowArrayIndex : bool;
  Coloring : bool
}.

Definition AsciiFormatterDefaultConfig : AsciiFormatterConfig :=
  {| ShowArrayIndex := false; Coloring := false |}.

Record AsciiLine : Type := {
  marker : string;
  indent : nat;
  line_buffer : string
}.

(** [line] is a pointer, [nil] until the first line is opened. *)
Record AsciiFormatter : Type := {
  left : value;
  config : AsciiFormatterConfig;
  buffer : string;
  path : list string;
  size : list Z;
  inArray : list bool;
  line : option AsciiLine
}.

Definition NewAsciiFormatter (left : value) (config : AsciiFormatterConfig)
  : AsciiFormatter :=
  {| left := left; config := config; buffer := ""; path := [];
     size := []; inArray := []; line := None |}.

Definition AsciiSame : string := " ".
Definition AsciiAdded : string := "+".
Definition AsciiDeleted : string := "-".

(** [AsciiStyles[marker]] with the [ok] flag *)
Definition AsciiStyles (marker : string) : option string :=
  if decide (marker = AsciiAdded) then Some "diff-added"
  else if decide (marker = AsciiDeleted) then Some "diff-deleted"
  else None.

(** A method of the formatter runs on the formatter's fields and either
    returns, leaving the fields as it changed them, or panics. *)
Inductive outcome (A : Type) : Type :=
| Return (a : A) (f : AsciiFormatter)
| Panics (p : panic).
Arguments Return {A} a f.
Arguments Panics {A} p.

Definition Fmt (A : Type) : Type := AsciiFormatter -> outcome A.

Definition ret {A} (a : A) : Fmt A := fun f => Return a f.

Definition bind {A B} (m : Fmt A) (k : A -> Fmt B) : Fmt B :=
  fun f =>
    match m f with
    | Return a f' => k a f'
    | Panics p => Panics p
    end.

Definition throw {A} (p : panic) : Fmt A := fun _ => Panics p.

Definition get : Fmt AsciiFormatter := fun f => Return f f.

Definition put (f : AsciiFormatter) : Fmt unit := fun _ => Return tt f.

Notation "x <- m ;; k" := (bind m (fun x => k))
  (at level 100, m at next level, right associativity).
Notation "m ;; k" := (bind m (fun _ => k))
  (at level 100, right associativity).

(** [for _, x := range l { body }] *)
Fixpoint for_each {A} (l : list A) (body : A -> Fmt unit) : Fmt unit :=
  match l with
  | [] => ret tt
  | x :: l' => body x ;; for_each l' body
  end.

(** A [range] loop whose body may [return] an error out of the enclosing
    function: the first error ends the loop. *)
Fixpoint for_each_return {A} (l : list A) (body : A -> Fmt (option error))
  : Fmt (option error) :=
  match l with
  | [] => ret None
  | x :: l' =>
      r <- body x ;;
      match r with
      | Some e => ret (Some e)
      | None => for_each_return l' body
      end
  end.

Definition set_buffer (b : string) (f : AsciiFormatter) : AsciiFormatter :=
  {| left := left f; config := config f; buffer := b; path := path f;
     size := size f; inArray := inArray f; line := line f |}.

Definition set_line (l : option AsciiLine) (f : AsciiFormatter)
  : AsciiFormatter :=
  {| left := left f; config := config f; buffer := buffer f; path := path f;
     size := size f; inArray := inArray f; line := l |}.

Definition set_size (s : list Z) (f : AsciiFormatter) : AsciiFormatter :=
  {| left := left f; config := config f; buffer := buffer f; path := path f;
     size := s; inArray := inArray f; line := line f |}.

Definition set_stacks (p : list string) (s : list Z) (a : list bool)
  (f : AsciiFormatter) : AsciiFormatter :=
  {| left := left f; config := config f; buffer := buffer f; path := p;
     size := s; inArray := a; line := line f |}.

(** [s[0 : len(s)-1]] *)
Definition drop_last {A} (l : list A) : list A := take (length l - 1)%nat l.

Definition push (name : string) (size_ : Z) (array : bool) : Fmt unit :=
  fun f =>
    Return tt
      (set_stacks (path f ++ [name]) (size f ++ [size_]) (inArray f ++ [array]) f).

Definition pop : Fmt unit :=
  fun f =>
    match path f, size f, inArray f with
    | _ :: _, _ :: _, _ :: _ =>
        Return tt
          (set_stacks (drop_last (path f)) (drop_last (size f))
             (drop_last (inArray f)) f)
    | _, _, _ => Panics SliceBoundsOutOfRange
    end.

(** [f.buffer.WriteString(s)] *)
Definition buffer_write (s : string) : Fmt unit :=
  fun f => Return tt (set_buffer (buffer f +:+ s) f).

(** [f.line.buffer.WriteString(s)] *)
Definition line_write (s : string) : Fmt unit :=
  fun f =>
    match line f with
    | Some l =>
        Return tt
          (set_line
             (Some {| marker := marker l; indent := indent l;
                      line_buffer := line_buffer l +:+ s |}) f)
    | None => Panics NilDereference
    end.

Fixpoint repeat_string (n : nat) (s : string) : string :=
  match n with
  | O => ""
  | S n' => s +:+ repeat_string n' s
  end.

Definition newline : string := String (Ascii.ascii_of_nat 10) "".
Definition quote : string := String (Ascii.ascii_of_nat 34) "".

Definition closeLine : Fmt unit :=
  f <- get ;;
  match line f with
  | None => throw NilDereference
  | Some l =>
      let style := AsciiStyles (marker l) in
      match style with
      | Some s =>
          if Coloring (config f)
          then buffer_write ("<span class=" +:+ quote +:+ s +:+ quote +:+ ">")
          else ret tt
      | None => ret tt
      end ;;
      buffer_write (marker l) ;;
      buffer_write (repeat_string (indent l) "  ") ;;
      buffer_write (line_buffer l) ;;
      match style with
      | Some _ =>
          if Coloring (config f) then buffer_write "</span>" else ret tt
      | None => ret tt
      end ;;
      buffer_write newline
  end.

Definition addLineWith (marker_ : string) (value_ : string) : Fmt unit :=
  f <- get ;;
  put (set_line
         (Some {| marker := marker_; indent := length (path f);
                  line_buffer := value_ |}) f) ;;
  closeLine.

Definition newLine (marker_ : string) : Fmt unit :=
  fun f =>
    Return tt
      (set_line
         (Some {| marker := marker_; indent := length (path f);
                  line_buffer := "" |}) f).

Definition printKey (name : string) : Fmt unit :=
  f <- get ;;
  match last (inArray f) with
  | None => throw IndexOutOfRange
  | Some false => line_write (quote +:+ name +:+ quote +:+ ": ")
  | Some true =>
      if ShowArrayIndex (config f) then line_write (name +:+ ": ") else ret tt
  end.

(** [f.size[len(f.size)-1] = n] *)
Definition set_last_size (n : Z) : Fmt unit :=
  fun f =>
    match size f with
    | [] => Panics IndexOutOfRange
    | _ => Return tt (set_size (drop_last (size f) ++ [n]) f)
    end.

(** [f.size[len(f.size)-1]] *)
Definition last_size : Fmt Z :=
  fun f =>
    match last (size f) with
    | None => Panics IndexOutOfRange
    | Some n => Return n f
    end.

Definition printComma : Fmt unit :=
  n <- last_size ;;
  set_last_size (int_wrap (n - 1)) ;;
  n' <- last_size ;;
  if 0 <? n' then line_write "," else ret tt.

(** [printValue] is reached from the default branch of [printRecursive]
    only, where the value is neither a map nor a slice; the Go-syntax
    rendering [%#v] of those two is not spelled out. *)
Definition printValue (v : value) : Fmt unit :=
  match v with
  | VString s => line_write (quote +:+ s +:+ quote)
  | VNil => line_write "null"
  | VBool b => line_write (if b then "true" else "false")
  | VNumber n => line_write (number_text n)
  | VSlice _ => line_write "[]interface {}{...}"
  | VMap _ => line_write "map[string]interface {}{...}"
  end.

Definition print (a : string) : Fmt unit := line_write a.

(** The default branch of [printRecursive]: one line for a scalar. *)
Definition printLeaf (name : string) (v : value) (marker_ : string)
  : Fmt unit :=
  newLine marker_ ;;
  printKey name ;;
  printValue v ;;
  printComma ;;
  closeLine.

(** [printRecursive].  The members of a map are visited through
    [sortedKeys]; so that the recursion stays on the members themselves, each
    member is first paired with its own rendering, and the loop over the
    sorted keys looks the rendering up ([printRecursive_map] below restates
    the loop as the source has it). *)
Fixpoint printRecursive (name : string) (v : value) (marker_ : string)
  {struct v} : Fmt unit :=
  match v with
  | VMap m =>
      newLine marker_ ;;
      printKey name ;;
      print "{" ;;
      closeLine ;;
      push name (len m) false ;;
      (let rendered :=
         (fix each (l : list (string * value)) : list (string * Fmt unit) :=
            match l with
            | [] => []
            | (k, x) :: l' => (k, printRecursive k x marker_) :: each l'
            end) m in
       for_each (sortedKeys m)
         (fun key =>
            match list_find (fun p => p.1 = key) rendered with
            | Some (_, (_, act)) => act
            | None => printLeaf key VNil marker_
            end)) ;;
      pop ;;
      newLine marker_ ;;
      print "}" ;;
      printComma ;;
      closeLine
  | VSlice s =>
      newLine marker_ ;;
      printKey name ;;
      print "[" ;;
      closeLine ;;
      push "" (len s) true ;;
      (fix each (l : list value) : Fmt unit :=
         match l with
         | [] => ret tt
         | item :: l' => printRecursive "" item marker_ ;; each l'
         end) s ;;
      pop ;;
      newLine marker_ ;;
      print "]" ;;
      printComma ;;
      closeLine
  | _ => printLeaf name v marker_
  end.

(** The position a delta is found under by [searchDeltas]: the post-position
    of a [PostDelta] (tried first, so also for [Moved]), the pre-position of
    a [PreDelta]. *)
Definition search_position (d : Delta) : Position :=
  match d with
  | Object p _ | Array p _ | Added p _ | Modified p _ _ | TextDiff p _ _ => p
  | Deleted p _ => p
  | Moved _ post _ => post
  end.

Definition searchDeltas (deltas : list Delta) (postion : Position)
  : list Delta :=
  filter (fun delta => search_position delta = postion) deltas.

(** What [processItem] does with one matched delta, given the value at the
    position and the position's text. *)
Definition handler : Type := value -> string -> Fmt (option error).

(** [processItem], [processObject] and [processArray] over deltas that come
    paired with their handlers. *)
Definition processItem_with (v : value) (deltas : list (Delta * handler))
  (position : Position) : Fmt (option error) :=
  let matchedDeltas :=
    filter (fun d => search_position d.1 = position) deltas in
  let positionStr := Position_String position in
  if (0 <? len matchedDeltas)
  then for_each_return matchedDeltas (fun d => d.2 v positionStr)
  else printRecursive positionStr v AsciiSame ;; ret None.

(** The loop over the [Added] deltas closing [processObject]. *)
Definition printAdded (delta : Delta) : Fmt unit :=
  match delta with
  | Added p v => printRecursive (Position_String p) v AsciiAdded
  | _ => ret tt
  end.

(** The same loop in [processArray], which skips the positions inside the
    array and asserts that the position is an index. *)
Definition printAddedBeyond (array : list value) (delta : Delta) : Fmt unit :=
  match delta with
  | Added (Index i) v =>
      if i <? len array then ret tt
      else printRecursive (Position_String (Index i)) v AsciiAdded
  | Added (Name _) _ => throw TypeAssertion
  | _ => ret tt
  end.

(** The error returned by [processItem] is dropped by both callers. *)
Definition processObject_with (object : list (string * value))
  (deltas : list (Delta * handler)) : Fmt (option error) :=
  for_each (sortedKeys object)
    (fun name =>
       let v := map_index object name in
       processItem_with v deltas (Name name) ;; ret tt) ;;
  for_each deltas.*1 printAdded ;;
  ret None.

Definition processArray_with (array : list value)
  (deltas : list (Delta * handler)) : Fmt (option error) :=
  for_each (imap (fun index v => (Z.of_nat index, v)) array)
    (fun iv => processItem_with iv.2 deltas (Index iv.1) ;; ret tt) ;;
  for_each deltas.*1 (printAddedBeyond array) ;;
  ret None.

(** The body of the loop of [processItem]: the type switch on the matched
    delta. *)
Fixpoint processDelta (matchedDelta : Delta) : handler :=
  fun v positionStr =>
    match matchedDelta with
    | Object _ deltas =>
        match v with
        | VMap o =>
            newLine AsciiSame ;;
            printKey positionStr ;;
            print "{" ;;
            closeLine ;;
            push positionStr (len o) false ;;
            processObject_with o ((fun d => (d, processDelta d)) <$> deltas) ;;
            pop ;;
            newLine AsciiSame ;;
            print "}" ;;
            printComma ;;
            closeLine ;;
            ret None
        | _ => ret (Some (errors_New "Type mismatch"))
        end
    | Array _ deltas =>
        match v with
        | VSlice a =>
            newLine AsciiSame ;;
            printKey positionStr ;;
            print "[" ;;
            closeLine ;;
            push positionStr (len a) true ;;
            processArray_with a ((fun d => (d, processDelta d)) <$> deltas) ;;
            pop ;;
            newLine AsciiSame ;;
            print "]" ;;
            printComma ;;
            closeLine ;;
            ret None
        | _ => ret (Some (errors_New "Type mismatch"))
        end
    | Added _ value_ =>
        printRecursive positionStr value_ AsciiAdded ;;
        n <- last_size ;;
        set_last_size (int_wrap (n + 1)) ;;
        ret None
    | Modified _ oldValue newValue =>
        savedSize <- last_size ;;
        printRecursive positionStr oldValue AsciiDeleted ;;
        set_last_size savedSize ;;
        printRecursive positionStr newValue AsciiAdded ;;
        ret None
    | TextDiff _ oldValue newValue =>
        savedSize <- last_size ;;
        printRecursive positionStr oldValue AsciiDeleted ;;
        set_last_size savedSize ;;
        printRecursive positionStr newValue AsciiAdded ;;
        ret None
    | Deleted _ value_ =>
        printRecursive positionStr value_ AsciiDeleted ;;
        ret None
    | Moved _ _ _ => ret (Some (errors_New "Unknown Delta type detected"))
    end.

Definition with_handlers (deltas : list Delta) : list (Delta * handler) :=
  (fun d => (d, processDelta d)) <$> deltas.

Definition processItem (v : value) (deltas : list Delta)
  (position : Position) : Fmt (option error) :=
  processItem_with v (with_handlers deltas) position.

Definition processObject (object : list (string * value))
  (deltas : list Delta) : Fmt (option error) :=
  processObject_with object (with_handlers deltas).

Definition processArray (array : list value) (deltas : list Delta)
  : Fmt (option error) :=
  processArray_with array (with_handlers deltas).

(** [df.Deltas()]: a method call on an interface value, which panics on
    [nil]. *)
Definition Diff_Deltas (df : Diff) : Fmt (list Delta) :=
  match df with
  | nilDiff => throw NilDereference
  | mkDiff deltas => ret deltas
  end.

Definition formatObject (left_ : list (string * value)) (df : Diff)
  : Fmt unit :=
  addLineWith AsciiSame "{" ;;
  push "ROOT" (len left_) false ;;
  deltas <- Diff_Deltas df ;;
  processObject left_ deltas ;;
  pop ;;
  addLineWith AsciiSame "}".

Definition formatArray (left_ : list value) (df : Diff) : Fmt unit :=
  addLineWith AsciiSame "[" ;;
  push "ROOT" (len left_) true ;;
  deltas <- Diff_Deltas df ;;
  processArray left_ deltas ;;
  pop ;;
  addLineWith AsciiSame "]".

(** [fmt]'s [%T]: the dynamic type of the value. *)
Definition type_name (v : value) : string :=
  match v with
  | VNil => "<nil>"
  | VBool _ => "bool"
  | VNumber n => number_type n
  | VString _ => "string"
  | VSlice _ => "[]interface {}"
  | VMap _ => "map[string]interface {}"
  end.

(** [AsciiFormatter.Format]: the pair [(result, err)] it returns. *)
Definition AsciiFormatter_Format (df : Diff) : Fmt (string * option error) :=
  f0 <- get ;;
  put (set_stacks [] [] [] (set_buffer "" f0)) ;;
  f <- get ;;
  match left f with
  | VMap v =>
      formatObject v df ;;
      f' <- get ;;
      ret (buffer f', None)
  | VSlice v =>
      formatArray v df ;;
      f' <- get ;;
      ret (buffer f', None)
  | _ =>
      ret ("",
           Some (errorString
                   ("expected map[string]interface{} or []interface{}, got "
                    +:+ type_name (left f))))
  end.

(** ** The printer *)

(** [w] is what has been written to the printer's writer, and [stdout] what
    [getChange] has printed on the standard output. *)
Record Printer : Type := {
  indentation : Z;
  lines : Z;
  w : string;
  stdout : string
}.

Definition NewPrinter : Printer :=
  {| indentation := 0; lines := 0; w := ""; stdout := "" |}.

Definition Fprintf (s : string) (p : Printer) : Printer :=
  {| indentation := indentation p; lines := lines p; w := w p +:+ s;
     stdout := stdout p |}.

Definition Printf (s : string) (p : Printer) : Printer :=
  {| indentation := indentation p; lines := lines p; w := w p;
     stdout := stdout p +:+ s |}.

Definition set_indentation (n : Z) (p : Printer) : Printer :=
  {| indentation := n; lines := lines p; w := w p; stdout := stdout p |}.

Fixpoint join (sep : string) (l : list string) : string :=
  match l with
  | [] => ""
  | [x] => x
  | x :: l' => x +:+ sep +:+ join sep l'
  end.

(** [fmt]'s [%v] on a value; the members of a map are printed in the order
    of the member list. *)
Fixpoint fmt_v (v : value) : string :=
  match v with
  | VNil => "<nil>"
  | VBool b => if b then "true" else "false"
  | VNumber n => number_text n
  | VString s => s
  | VSlice items => "[" +:+ join " " (fmt_v <$> items) +:+ "]"
  | VMap members =>
      "map[" +:+
      join " " ((fun kv : string * value => kv.1 +:+ ":" +:+ fmt_v kv.2)
                  <$> members) +:+ "]"
  end.

(** [mapMerge].  The left map is updated in place and returned: the value
    computed here is both the result and what the caller's left map holds
    after the call.  The right map is only read. *)
Definition mapMerge (left_ right_ : value) : value :=
  match left_, right_ with
  | VMap leftMap, VMap rightMap =>
      VMap (fold_left
              (fun leftMap kv =>
                 match map_get leftMap kv.1 with
                 | Some _ => leftMap
                 | None => map_set leftMap kv.1 kv.2
                 end)
              rightMap leftMap)
  | _, _ => left_
  end.

(** [deltaToMap]: a later delta at the same position replaces the entry of
    an earlier one. *)
Definition deltaToMap (deltas : list Delta) : gmap string (list Delta) :=
  fold_left
    (fun invertedDelta delta =>
       match delta with
       | Object p ds | Array p ds =>
           <[Position_String p := ds]> invertedDelta
       | Added p _ | Modified p _ _ | TextDiff p _ _ | Deleted p _ =>
           <[Position_String p := [delta]]> invertedDelta
       | Moved _ post _ =>
           <[Position_String post := [delta]]> invertedDelta
       end)
    deltas ∅.

(** [getChange] returns a string or [nil]; for an [Object] it prints on the
    standard output and returns [nil].  The second component is what it
    printed. *)
Fixpoint getChange (delta : Delta) : option string * string :=
  match delta with
  | Object _ deltas =>
      (None,
       (fix each (l : list Delta) : string :=
          match l with
          | [] => ""
          | v :: l' =>
              let (change, printed) := getChange v in
              "anything happen" +:+ newline +:+ printed +:+
              String (Ascii.ascii_of_nat 9) "" +:+ default "<nil>" change +:+
              newline +:+ each l'
          end) deltas)
  | Added _ v =>
      (Some ("<div class='circle circle-added'></div><strong>Added</strong> "
             +:+ fmt_v v), "")
  | Modified _ o n | TextDiff _ o n =>
      (Some ("<div class='circle circle-changed'></div>" +:+ fmt_v o +:+
             " → " +:+ fmt_v n), "")
  | Deleted _ v =>
      (Some ("<div class='circle circle-deleted'></div><strong>Deleted</strong> "
             +:+ fmt_v v), "")
  | Moved _ _ v =>
      (Some ("<div class='circle circle-changed'></div><strong>Moved</strong> "
             +:+ fmt_v v), "")
  | Array _ _ => (None, "")
  end.

(** The block printed for one delta under key [k] whose left value is
    [obj]. *)
Definition print_change (k : string) (obj : value) (d : Delta) (p : Printer)
  : Printer :=
  let p := Fprintf ("<div class=" +:+ quote +:+ "bg-light" +:+ quote +:+
                    " style=" +:+ quote +:+ "margin: 0 .25rem" +:+ quote +:+
                    ">") p in
  let p := Fprintf ("<h3 class='indent-" +:+ Itoa (indentation p) +:+ "'>"
                    +:+ k +:+ "</h3>" +:+ newline) p in
  let (change, printed) := getChange d in
  let p := Printf printed p in
  let p :=
    match obj with
    | VMap _ => p
    | _ =>
        Fprintf ("<div class='indent-" +:+
                 Itoa (int_wrap (indentation p + 1)) +:+ "'>" +:+
                 default "%!s(<nil>)" change +:+ "</div>" +:+ newline) p
    end in
  Fprintf "</div>" p.

(** One round of the loop of [Printer.Format] over the merged left map:
    the member [k], [obj] is printed when the deltas hold its key, and the
    nested call, found under [k] when the right member is a map too, is run
    on a left member that is a map and leaves it updated. *)
Definition format_member (deltaMap : gmap string (list Delta))
  (nested : list (string * option (Printer -> value -> list Delta ->
                                   Printer * value)))
  (acc : Printer * list (string * value)) (kv : string * value)
  : Printer * list (string * value) :=
  let (p, done) := acc in
  let (k, obj) := kv in
  match deltaMap !! k with
  | Some ds =>
      let p := fold_left (fun p d => print_change k obj d p) ds p in
      match list_find (fun e => e.1 = k) nested, obj with
      | Some (_, (_, Some call)), VMap _ =>
          let (p, leftK) := call p obj ds in
          (p, done ++ [(k, leftK)])
      | _, _ => (p, done ++ [(k, obj)])
      end
  | None => (p, done ++ [(k, obj)])
  end.

(** [Printer.Format].  It returns nothing; the pair computed here is the
    printer after the call and what the caller's left value holds after the
    call, since [mapMerge] and the nested calls update the left maps in
    place.  The recursion follows the right value: each member of the right
    map is paired with the nested call on it, and the loop over the merged
    left map looks the call up, as the source looks [rightMap[k]] up.  The
    left and right values share no map on entry. *)
Fixpoint Printer_Format (p : Printer) (left_ right_ : value)
  (deltas : list Delta) {struct right_} : Printer * value :=
  let p := set_indentation (int_wrap (indentation p + 1)) p in
  let left_ := mapMerge left_ right_ in
  let deltaMap := deltaToMap deltas in
  let (p, left_) :=
    match left_ with
    | VMap v =>
        let nested :=
          match right_ with
          | VMap rightMap =>
              (fix each (l : list (string * value)) :=
                 match l with
                 | [] => []
                 | (k, rightK) :: l' =>
                     (k,
                      match rightK with
                      | VMap _ =>
                          Some (fun p leftK ds =>
                                  Printer_Format p leftK rightK ds)
                      | _ => None
                      end) :: each l'
                 end) rightMap
          | _ => []
          end in
        let (p, v) := fold_left (format_member deltaMap nested) v (p, []) in
        (p, VMap v)
    | _ => (p, left_)
    end in
  (set_indentation (int_wrap (indentation p - 1)) p, left_).

(** ** The version store *)

(** Modelled from the spec: [simplejson] is not among the sources.  Its
    [Set] rewrites the named field of the payload when the payload is an
    object and leaves any other payload alone. *)
Definition Json_Set (data : value) (key : string) (val : value) : value :=
  match data with
  | VMap m => VMap (map_set m key val)
  | _ => data
  end.

(** The columns of the [dashboard] table this code reads and writes.  A time
    is counted from the zero value of [time.Time]. *)
Record Dashboard : Type := {
  Dashboard_Id : Z;
  Dashboard_Version : Z;
  Dashboard_Data : value;
  Dashboard_Updated : Z;
  Dashboard_UpdatedBy : Z
}.

Record DashboardVersion : Type := {
  DashboardVersion_Id : Z;
  DashboardVersion_DashboardId : Z;
  DashboardVersion_ParentVersion : Z;
  DashboardVersion_RestoredFrom : Z;
  DashboardVersion_Version : Z;
  DashboardVersion_Created : Z;
  DashboardVersion_CreatedBy : Z;
  DashboardVersion_Message : string;
  DashboardVersion_Data : value
}.

(** The database: the [dashboard] table by primary key, and the rows of
    [dashboard_version] in insertion order, which holds a pair of dashboard
    id and version number at most once (its unique index). *)
Record DB : Type := {
  dashboard : gmap Z Dashboard;
  dashboard_version : list DashboardVersion
}.

Definition set_data (data : value) (v : DashboardVersion) : DashboardVersion :=
  {| DashboardVersion_Id := DashboardVersion_Id v;
     DashboardVersion_DashboardId := DashboardVersion_DashboardId v;
     DashboardVersion_ParentVersion := DashboardVersion_ParentVersion v;
     DashboardVersion_RestoredFrom := DashboardVersion_RestoredFrom v;
     DashboardVersion_Version := DashboardVersion_Version v;
     DashboardVersion_Created := DashboardVersion_Created v;
     DashboardVersion_CreatedBy := DashboardVersion_CreatedBy v;
     DashboardVersion_Message := DashboardVersion_Message v;
     DashboardVersion_Data := data |}.

(** The rows of [dashboard_version] of one dashboard. *)
Definition versions_of (db : DB) (dashboardId : Z) : list DashboardVersion :=
  filter (fun r => DashboardVersion_DashboardId r = dashboardId)
    (dashboard_version db).

(** [Where("dashboard_id=? AND version=?", ...).Get]: the first matching
    row, if any. *)
Definition find_version (db : DB) (dashboardId version : Z)
  : option DashboardVersion :=
  snd <$> list_find
    (fun r => DashboardVersion_DashboardId r = dashboardId ∧
              DashboardVersion_Version r = version)
    (dashboard_version db).

Definition getDashboardVersion (db : DB) (dashboardId version : Z)
  : DashboardVersion + error :=
  match find_version db dashboardId version with
  | None => inr ErrDashboardVersionNotFound
  | Some dashboardVersion =>
      inl (set_data
             (Json_Set (DashboardVersion_Data dashboardVersion) "id"
                (VNumber (number_of_int
                            (DashboardVersion_DashboardId dashboardVersion))))
             dashboardVersion)
  end.

Definition getDashboard (db : DB) (dashboardId : Z) : Dashboard + error :=
  match dashboard db !! dashboardId with
  | None => inr ErrDashboardNotFound
  | Some d => inl d
  end.

(** [Select("MAX(version) AS max").Where("dashboard_id = ?", ...).Get(&v)]:
    the flag [has], the error and the field [Max] the call leaves.  The query
    is an aggregate: it yields one row whether or not the dashboard has
    version rows, with [NULL] for a dashboard that has none, which leaves
    [Max] at its zero value.  The database of this model answers every query;
    with a driver that fails, [Get] returns [has] false and the error. *)
Definition select_max_version (sess : DB) (dashboardId : Z)
  : bool * option error * Z :=
  match DashboardVersion_Version <$> versions_of sess dashboardId with
  | [] => (true, None, 0)
  | x :: l => (true, None, foldr Z.max x l)
  end.

(** What [getMaxVersion] makes of the outcome of the query: [has] is tested
    before the error. *)
Definition getMaxVersion_of (outcome : bool * option error * Z)
  : Z * option error :=
  let '(has, err, Max) := outcome in
  if negb has then (0, Some ErrDashboardNotFound)
  else match err with
       | Some e => (0, Some e)
       | None => (int_wrap (Max + 1), None)
       end.

Definition getMaxVersion (sess : DB) (dashboardId : Z) : Z * option error :=
  getMaxVersion_of (select_max_version sess dashboardId).

(** The row [Update] leaves for a stored row and the struct it is given: a
    column is written when the field of the struct is not the zero value of
    its type and is left as stored otherwise; the payload, which converts
    itself for the database, is always written, and the primary key never. *)
Definition updated_row (stored row : Dashboard) : Dashboard :=
  {| Dashboard_Id := Dashboard_Id stored;
     Dashboard_Version :=
       if decide (Dashboard_Version row = 0) then Dashboard_Version stored
       else Dashboard_Version row;
     Dashboard_Data := Dashboard_Data row;
     Dashboard_Updated :=
       if decide (Dashboard_Updated row = 0) then Dashboard_Updated stored
       else Dashboard_Updated row;
     Dashboard_UpdatedBy :=
       if decide (Dashboard_UpdatedBy row = 0) then Dashboard_UpdatedBy stored
       else Dashboard_UpdatedBy row |}.

(** [sess.Id(id).Update(row)]: the affected rows, the error, the session
    afterwards. *)
Definition sess_Update (sess : DB) (id : Z) (row : Dashboard)
  : Z * option error * DB :=
  match dashboard sess !! id with
  | Some stored =>
      (1, None,
       {| dashboard := <[id := updated_row stored row]> (dashboard sess);
          dashboard_version := dashboard_version sess |})
  | None => (0, None, sess)
  end.

(** The next value of the auto-incremented primary key. *)
Definition next_id (rows : list DashboardVersion) : Z :=
  1 + foldr Z.max 0 (DashboardVersion_Id <$> rows).

(** [sess.Insert(row)]: the driver refuses a second row with the same
    dashboard id and version number. *)
Definition sess_Insert (sess : DB) (row : DashboardVersion)
  : Z * option error * DB :=
  match find_version sess (DashboardVersion_DashboardId row)
          (DashboardVersion_Version row) with
  | Some _ =>
      (0, Some (ErrDriver "UNIQUE constraint failed: dashboard_version"), sess)
  | None =>
      (1, None,
       {| dashboard := dashboard sess;
          dashboard_version :=
            dashboard_version sess ++
            [ {| DashboardVersion_Id := next_id (dashboard_version sess);
                 DashboardVersion_DashboardId := DashboardVersion_DashboardId row;
                 DashboardVersion_ParentVersion :=
                   DashboardVersion_ParentVersion row;
                 DashboardVersion_RestoredFrom :=
                   DashboardVersion_RestoredFrom row;
                 DashboardVersion_Version := DashboardVersion_Version row;
                 DashboardVersion_Created := DashboardVersion_Created row;
                 DashboardVersion_CreatedBy := DashboardVersion_CreatedBy row;
                 DashboardVersion_Message := DashboardVersion_Message row;
                 DashboardVersion_Data := DashboardVersion_Data row |} ] |})
  end.

(** A function run inside a transaction: it works on the session and ends
    with a result or an error, leaving the session as far as it got. *)
Definition Tx (A : Type) : Type := DB -> (A + error) * DB.

(** Modelled from the spec: [inTransaction] is not among the sources.  It
    executes the callback atomically: what the session did is committed when
    the callback returns no error and rolled back when it returns one. *)
Definition inTransaction {A} (callback : Tx A) (db : DB)
  : (A + error) * DB :=
  match callback db with
  | (inl a, sess) => (inl a, sess)
  | (inr err, _) => (inr err, db)
  end.

Record RestoreDashboardVersionCommand : Type := {
  Restore_DashboardId : Z;
  Restore_Version : Z;
  Restore_UserId : Z;
  Restore_Result : option Dashboard
}.

(** The first half of the callback of [RestoreDashboardVersion]: the
    dashboard as it is to be written.  [now] is the reading of the clock. *)
Definition restored_dashboard (cmd : RestoreDashboardVersionCommand)
  (now : Z) (sess : DB) : Dashboard + error :=
  match getDashboardVersion sess (Restore_DashboardId cmd)
          (Restore_Version cmd) with
  | inr err => inr err
  | inl dashboardVersion =>
      match getDashboard sess (Restore_DashboardId cmd) with
      | inr err => inr err
      | inl dashboard_ =>
          match getMaxVersion sess (Dashboard_Id dashboard_) with
          | (_, Some err) => inr err
          | (version, None) =>
              let data := DashboardVersion_Data dashboardVersion in
              let data :=
                Json_Set data "version" (VNumber (number_of_int version)) in
              let data :=
                Json_Set data "restoredFrom"
                  (VNumber (number_of_int (Restore_Version cmd))) in
              inl {| Dashboard_Id := Dashboard_Id dashboard_;
                     Dashboard_Version := version;
                     Dashboard_Data := data;
                     Dashboard_Updated := now;
                     Dashboard_UpdatedBy := Restore_UserId cmd |}
          end
      end
  end.

(** The second half: the update of the dashboard row and the insertion of
    the new version row.  [now] is the second reading of the clock. *)
Definition update_and_append (cmd : RestoreDashboardVersionCommand)
  (dashboard_ : Dashboard) (now : Z) : Tx Dashboard :=
  fun sess =>
    let '(affectedRows, err, sess) :=
      sess_Update sess (Dashboard_Id dashboard_) dashboard_ in
    match err with
    | Some e => (inr e, sess)
    | None =>
        if decide (affectedRows = 0) then (inr ErrDashboardNotFound, sess)
        else
          let dashVersion :=
            {| DashboardVersion_Id := 0;
               DashboardVersion_DashboardId := Dashboard_Id dashboard_;
               DashboardVersion_ParentVersion := Restore_Version cmd;
               DashboardVersion_RestoredFrom := Restore_Version cmd;
               DashboardVersion_Version := Dashboard_Version dashboard_;
               DashboardVersion_Created := now;
               DashboardVersion_CreatedBy := Dashboard_UpdatedBy dashboard_;
               DashboardVersion_Message := "";
               DashboardVersion_Data := Dashboard_Data dashboard_ |} in
          let '(affectedRows, err, sess) := sess_Insert sess dashVersion in
          match err with
          | Some e => (inr e, sess)
          | None =>
              if decide (affectedRows = 0)
              then (inr ErrDashboardNotFound, sess)
              else (inl dashboard_, sess)
          end
    end.

Definition restore_callback (cmd : RestoreDashboardVersionCommand)
  (now1 now2 : Z) : Tx Dashboard :=
  fun sess =>
    match restored_dashboard cmd now1 sess with
    | inr err => (inr err, sess)
    | inl dashboard_ => update_and_append cmd dashboard_ now2 sess
    end.

(** [RestoreDashboardVersion]: the command with its [Result] set on success,
    the error, and the database afterwards. *)
Definition RestoreDashboardVersion (cmd : RestoreDashboardVersionCommand)
  (now1 now2 : Z) (db : DB)
  : RestoreDashboardVersionCommand * option error * DB :=
  match inTransaction (restore_callback cmd now1 now2) db with
  | (inl dashboard_, db') =>
      ({| Restore_DashboardId := Restore_DashboardId cmd;
          Restore_Version := Restore_Version cmd;
          Restore_UserId := Restore_UserId cmd;
          Restore_Result := Some dashboard_ |}, None, db')
  | (inr err, db') => (cmd, Some err, db')
  end.

Record GetDashboardVersionCommand : Type := {
  Get_DashboardId : Z;
  Get_Version : Z;
  Get_Result : option DashboardVersion
}.

(** [GetDashboardVersion]: the query with its [Result] set on success, and
    the error. *)
Definition GetDashboardVersion (query : GetDashboardVersionCommand) (db : DB)
  : GetDashboardVersionCommand * option error :=
  match getDashboardVersion db (Get_DashboardId query) (Get_Version query) with
  | inr err => (query, Some err)
  | inl result =>
      ({| Get_DashboardId := Get_DashboardId query;
          Get_Version := Get_Version query;
          Get_Result := Some result |}, None)
  end.

(** ** The tree diff engine *)

Definition scalar_eqb (a b : value) : bool :=
  match a, b with
  | VNil, VNil => true
  | VBool x, VBool y => bool_decide (x = y)
  | VNumber x, VNumber y => bool_decide (x = y)
  | VString x, VString y => bool_decide (x = y)
  | _, _ => false
  end.

(** The keys of both sides, each once, in ascending order. *)
Definition union_keys (o u : list (string * value)) : list string :=
  sort_Strings (remove_dups (o.*1 ++ u.*1)).

(** Modelled from the spec: the diff library is not among the sources.
    [compare_at position original updated] is the delta between two values
    at a position, or nothing when they are equal.  Two objects: the union of
    the keys, each visited once; a key of the new side only is [Added], a key
    of the original side only is [Deleted], a key of both recurses, and an
    unchanged member is omitted.  Two arrays: index by index up to the length
    of the original, the trailing elements of a longer new array [Added] at
    their index.  Two scalars: nothing when equal, a [TextDiff] for two
    unequal strings, [Modified] otherwise.  Two values of different kinds:
    [Modified].  The detection of moved values, which the spec leaves open,
    is not part of the model. *)
Fixpoint compare_at (position : Position) (original updated : value)
  {struct original} : option Delta :=
  match original, updated with
  | VMap o, VMap u =>
      let members :=
        (fix each (l : list (string * value))
           : list (string * (value * (Position -> value -> option Delta))) :=
           match l with
           | [] => []
           | (k, x) :: l' =>
               (k, (x, fun pos y => compare_at pos x y)) :: each l'
           end) o in
      let deltas :=
        omap
          (fun k =>
             match list_find (fun e => e.1 = k) members, map_get u k with
             | Some (_, (_, (_, rec))), Some y => rec (Name k) y
             | Some (_, (_, (x, _))), None => Some (Deleted (Name k) x)
             | None, Some y => Some (Added (Name k) y)
             | None, None => None
             end)
          (union_keys o u) in
      match deltas with
      | [] => None
      | _ => Some (Object position deltas)
      end
  | VSlice o, VSlice u =>
      let deltas :=
        (fix each (i : Z) (l r : list value) {struct l} : list Delta :=
           match l, r with
           | [], _ => imap (fun j y => Added (Index (i + Z.of_nat j)) y) r
           | x :: l', [] => Deleted (Index i) x :: each (i + 1) l' []
           | x :: l', y :: r' =>
               match compare_at (Index i) x y with
               | Some d => d :: each (i + 1) l' r'
               | None => each (i + 1) l' r'
               end
           end) 0 o u in
      match deltas with
      | [] => None
      | _ => Some (Array position deltas)
      end
  | VString x, VString y =>
      if bool_decide (x = y) then None
      else Some (TextDiff position original updated)
  | VMap _, _ | VSlice _, _ => Some (Modified position original updated)
  | _, _ =>
      if scalar_eqb original updated then None
      else Some (Modified position original updated)
  end.

(** Modelled from the spec: [diff.New().Compare] of the diff library, the
    deltas between the members of the two roots. *)
Definition Compare (original updated : value) : Diff :=
  match compare_at (Name "") original updated with
  | None => mkDiff []
  | Some (Object _ deltas) | Some (Array _ deltas) => mkDiff deltas
  | Some d => mkDiff [d]
  end.

(** Modelled from the spec: [Modified()] of the diff library, which tells
    whether the diff holds a delta; a method call on [nil] panics. *)
Definition Diff_Modified (df : Diff) : call bool :=
  match df with
  | nilDiff => Panicked NilDereference
  | mkDiff deltas => Returns (bool_decide (deltas <> []))
  end.

(** The document [simplejson.NewFromAny(v).Encode()] writes for a version
    row, as the diff library decodes it: the fields under the names of their
    [json] tags. *)
Definition DashboardVersion_json (v : DashboardVersion) : value :=
  VMap [("id", VNumber (number_of_int (DashboardVersion_Id v)));
        ("dashboardId",
         VNumber (number_of_int (DashboardVersion_DashboardId v)));
        ("parentVersion",
         VNumber (number_of_int (DashboardVersion_ParentVersion v)));
        ("restoredFrom",
         VNumber (number_of_int (DashboardVersion_RestoredFrom v)));
        ("version", VNumber (number_of_int (DashboardVersion_Version v)));
        ("created", VString (time_text (DashboardVersion_Created v)));
        ("createdBy", VNumber (number_of_int (DashboardVersion_CreatedBy v)));
        ("message", VString (DashboardVersion_Message v));
        ("data", DashboardVersion_Data v)].

(** [getDiff]: the left document, the diff and the error.  Encoding and
    decoding a document of this value model raise no error. *)
Definition getDiff (originalDash newDash : DashboardVersion)
  : call (value * Diff * option error) :=
  let leftBytes := DashboardVersion_json originalDash in
  let rightBytes := DashboardVersion_json newDash in
  let jsonDiff := Compare leftBytes rightBytes in
  match Diff_Modified jsonDiff with
  | Panicked p => Panicked p
  | Returns false => Returns (VNil, nilDiff, None)
  | Returns true => Returns (leftBytes, jsonDiff, None)
  end.

(** ** Comparing two versions *)

(** The values of [models.DiffType], an [int] enumeration declared with the
    commands, outside these sources. *)
Definition DiffJSON : Z := 0.
Definition DiffBasic : Z := 1.
Definition DiffDelta : Z := 2.

Record CompareDashboardVersionsCommand : Type := {
  Compare_DashboardId : Z;
  Compare_Original : Z;
  Compare_New : Z;
  Compare_DiffType : Z;
  Compare_Delta : option string
}.

Definition set_Delta (out : string) (cmd : CompareDashboardVersionsCommand)
  : CompareDashboardVersionsCommand :=
  {| Compare_DashboardId := Compare_DashboardId cmd;
     Compare_Original := Compare_Original cmd;
     Compare_New := Compare_New cmd;
     Compare_DiffType := Compare_DiffType cmd;
     Compare_Delta := Some out |}.

Section Compare.

(** The three renderers, which live outside these sources: the delta
    formatter of the diff library, and the JSON and basic formatters built on
    the left document.  Each returns its output and an error, or panics. *)
Variable DeltaFormatter_Format : Diff -> call (string * option error).
Variable JSONFormatter_Format : value -> Diff -> call (string * option error).
Variable BasicFormatter_Format : value -> Diff -> call (string * option error).

(** One case of the switch: [cmd.Delta] is assigned when the renderer
    returns no error. *)
Definition render (cmd : CompareDashboardVersionsCommand)
  (output : call (string * option error))
  : call (CompareDashboardVersionsCommand * option error) :=
  match output with
  | Panicked p => Panicked p
  | Returns (_, Some err) => Returns (cmd, Some err)
  | Returns (out, None) => Returns (set_Delta out cmd, None)
  end.

(** [CompareDashboardVersionsCommand]: the command as the call leaves it and
    the error returned. *)
Definition CompareDashboardVersions (cmd : CompareDashboardVersionsCommand)
  (db : DB) : call (CompareDashboardVersionsCommand * option error) :=
  match getDashboardVersion db (Compare_DashboardId cmd)
          (Compare_Original cmd) with
  | inr err => Returns (cmd, Some err)
  | inl original =>
      match getDashboardVersion db (Compare_DashboardId cmd)
              (Compare_New cmd) with
      | inr err => Returns (cmd, Some err)
      | inl newDashboard =>
          match getDiff original newDashboard with
          | Panicked p => Panicked p
          | Returns (_, _, Some err) => Returns (cmd, Some err)
          | Returns (left_, jsonDiff, None) =>
              if decide (Compare_DiffType cmd = DiffDelta)
              then render cmd (DeltaFormatter_Format jsonDiff)
              else if decide (Compare_DiffType cmd = DiffJSON)
              then render cmd (JSONFormatter_Format left_ jsonDiff)
              else if decide (Compare_DiffType cmd = DiffBasic)
              then render cmd (BasicFormatter_Format left_ jsonDiff)
              else Returns (cmd, Some ErrUnsupportedDiffType)
          end
      end
  end.

End Compare.

End Engine.

Arguments Return {_ A} a f.
Arguments Panics {_ A} p.

(** * Properties *)

Section Properties.
Context `{GoNumber}.

Notation "x <- m ;; k" := (bind m (fun x => k))
  (at level 100, m at next level, right associativity).
Notation "m ;; k" := (bind m (fun _ => k))
  (at level 100, right associativity).

(** ** Induction on values *)

(** Induction on a value, with the hypothesis for every item of a slice and
    every member of a map. *)
Lemma value_ind' (P : value -> Prop) :
  P VNil ->
  (forall b, P (VBool b)) ->
  (forall n, P (VNumber n)) ->
  (forall s, P (VString s)) ->
  (forall items, Forall P items -> P (VSlice items)) ->
  (forall members,
     Forall (fun kv : string * value => P kv.2) members ->
     P (VMap members)) ->
  forall v, P v.
Proof.
  intros HNil HBool HNumber HString HSlice HMap.
  fix IH 1. intros [| b | n | s | items | members].
  - exact HNil.
  - apply HBool.
  - apply HNumber.
  - apply HString.
  - apply HSlice. induction items as [|x items IHitems]; constructor.
    + apply IH.
    + exact IHitems.
  - apply HMap. induction members as [|[k x] members IHmembers]; constructor.
    + apply IH.
    + exact IHmembers.
Qed.

Lemma map_get_elem (m : list (string * value)) (key : string) (x : value) :
  map_get m key = Some x -> (key, x) ∈ m.
Proof.
  induction m as [|[k y] m IH]; [done|].
  simpl. destruct (decide (k = key)) as [->|Hne].
  - intros [= ->]. apply list_elem_of_here.
  - intros Hg. apply list_elem_of_further. by apply IH.
Qed.

(** ** The version store *)

Lemma int_wrap_id (z : Z) : int_min <= z <= int_max -> int_wrap z = z.
Proof.
  unfold int_wrap, int_min, int_max. intros Hz.
  rewrite Z.mod_small; lia.
Qed.

Lemma foldr_max_ge (x : Z) (l : list Z) : x <= foldr Z.max x l.
Proof. induction l as [|y l IH]; simpl; lia. Qed.

Lemma foldr_max_upper (x : Z) (l : list Z) :
  forall y, y ∈ l -> y <= foldr Z.max x l.
Proof.
  induction l as [|z l IH]; intros y Hy.
  - inversion Hy.
  - apply elem_of_cons in Hy as [->|Hy]; simpl; [lia|].
    specialize (IH y Hy). lia.
Qed.

Lemma foldr_max_elem (x : Z) (l : list Z) : foldr Z.max x l ∈ x :: l.
Proof.
  induction l as [|z l IH]; simpl.
  - apply list_elem_of_here.
  - destruct (Z.max_spec z (foldr Z.max x l)) as [[_ ->]|[_ ->]].
    + apply elem_of_cons in IH as [->|IH].
      * apply list_elem_of_here.
      * do 2 apply list_elem_of_further. exact IH.
    + apply list_elem_of_further, list_elem_of_here.
Qed.

(** [m] is the highest version number among the rows of a dashboard. *)
Definition max_version (sess : DB) (dashboardId m : Z) : Prop :=
  m ∈ DashboardVersion_Version <$> versions_of sess dashboardId /\
  forall v, v ∈ DashboardVersion_Version <$> versions_of sess dashboardId ->
            v <= m.

Lemma select_max_version_found sess dashboardId :
  versions_of sess dashboardId <> [] ->
  exists m, max_version sess dashboardId m /\
            select_max_version sess dashboardId = (true, None, m).
Proof.
  intros Hne. unfold select_max_version, max_version.
  destruct (versions_of sess dashboardId) as [|r rows]; [done|].
  rewrite fmap_cons. set (x := DashboardVersion_Version r).
  set (l := DashboardVersion_Version <$> rows).
  exists (foldr Z.max x l). split; [split|reflexivity].
  - apply foldr_max_elem.
  - intros v Hv. apply elem_of_cons in Hv as [->|Hv].
    + apply foldr_max_ge.
    + by apply foldr_max_upper.
Qed.

Lemma getMaxVersion_found sess dashboardId :
  Forall (fun r => int_min <= DashboardVersion_Version r < int_max)
    (versions_of sess dashboardId) ->
  versions_of sess dashboardId <> [] ->
  exists m, max_version sess dashboardId m /\
            getMaxVersion sess dashboardId = (m + 1, None).
Proof.
  intros Hrange Hne.
  destruct (select_max_version_found sess dashboardId Hne) as (m & Hm & Hsel).
  exists m. split; [exact Hm|].
  unfold getMaxVersion. rewrite Hsel. simpl.
  rewrite int_wrap_id; [reflexivity|].
  destruct Hm as [Hin _].
  apply list_elem_of_fmap in Hin as (r & -> & Hr).
  rewrite Forall_forall in Hrange. specialize (Hrange r Hr).
  unfold int_min, int_max in *. lia.
Qed.


Lemma sess_Update_spec sess id row affected err sess' :
  sess_Update sess id row = (affected, err, sess') ->
  err = None /\
  ((affected = 0 /\ dashboard sess !! id = None /\ sess' = sess) \/
   (affected = 1 /\
    exists old,
      dashboard sess !! id = Some old /\
      dashboard sess' = <[id := updated_row old row]> (dashboard sess) /\
      dashboard_version sess' = dashboard_version sess)).
Proof.
  unfold sess_Update. destruct (dashboard sess !! id) as [d|] eqn:Hd.
  - intros [= <- <- <-]. split; [done|]. right. eauto.
  - intros [= <- <- <-]. split; [done|]. by left.
Qed.

(** The row [sess.Insert] stores for [row]: the row under a fresh key. *)
Definition stored (sess : DB) (row : DashboardVersion) : DashboardVersion :=
  {| DashboardVersion_Id := next_id (dashboard_version sess);
     DashboardVersion_DashboardId := DashboardVersion_DashboardId row;
     DashboardVersion_ParentVersion := DashboardVersion_ParentVersion row;
     DashboardVersion_RestoredFrom := DashboardVersion_RestoredFrom row;
     DashboardVersion_Version := DashboardVersion_Version row;
     DashboardVersion_Created := DashboardVersion_Created row;
     DashboardVersion_CreatedBy := DashboardVersion_CreatedBy row;
     DashboardVersion_Message := DashboardVersion_Message row;
     DashboardVersion_Data := DashboardVersion_Data row |}.

Lemma sess_Insert_spec sess row affected err sess' :
  sess_Insert sess row = (affected, err, sess') ->
  (affected = 0 /\ (exists msg, err = Some (ErrDriver msg)) /\ sess' = sess /\
   is_Some (find_version sess (DashboardVersion_DashboardId row)
              (DashboardVersion_Version row))) \/
  (affected = 1 /\ err = None /\
   find_version sess (DashboardVersion_DashboardId row)
     (DashboardVersion_Version row) = None /\
   dashboard sess' = dashboard sess /\
   dashboard_version sess' = dashboard_version sess ++ [stored sess row]).
Proof.
  unfold sess_Insert.
  destruct (find_version sess _ _) as [r|] eqn:Hf.
  - intros [= <- <- <-]. left. eauto 10.
  - intros [= <- <- <-]. right. eauto 10.
Qed.

Lemma map_get_map_set (m : list (string * value)) (key key' : string)
  (v : value) :
  map_get (map_set m key v) key'
  = if decide (key = key') then Some v else map_get m key'.
Proof.
  induction m as [|[k x] m IH]; simpl.
  - done.
  - destruct (decide (k = key)) as [->|Hne]; simpl.
    + by destruct (decide (key = key')).
    + rewrite IH. destruct (decide (k = key')) as [->|Hne'];
        destruct (decide (key = key')); congruence.
Qed.


(** The row [getDashboardVersion] hands out for a stored row: the row with
    the dashboard id written into its payload. *)
Definition with_id (r : DashboardVersion) : DashboardVersion :=
  set_data
    (Json_Set (DashboardVersion_Data r) "id"
       (VNumber (number_of_int (DashboardVersion_DashboardId r)))) r.


(** The live document [RestoreDashboardVersion] writes: the payload of the
    fetched version with its version field rewritten and the restored-from
    marker set, under the dashboard's id, the new version number, the time
    and the user. *)
Definition restored_document (cmd : RestoreDashboardVersionCommand)
  (target : DashboardVersion) (live : Dashboard) (version now : Z)
  : Dashboard :=
  {| Dashboard_Id := Dashboard_Id live;
     Dashboard_Version := version;
     Dashboard_Data :=
       Json_Set
         (Json_Set (DashboardVersion_Data target) "version"
            (VNumber (number_of_int version)))
         "restoredFrom" (VNumber (number_of_int (Restore_Version cmd)));
     Dashboard_Updated := now;
     Dashboard_UpdatedBy := Restore_UserId cmd |}.


Lemma update_and_append_inv cmd d now sess d' sess' :
  update_and_append cmd d now sess = (inl d', sess') ->
  d' = d /\
  find_version sess (Dashboard_Id d) (Dashboard_Version d) = None /\
  (exists old,
     dashboard sess !! Dashboard_Id d = Some old /\
     dashboard sess' = <[Dashboard_Id d := updated_row old d]> (dashboard sess))
  /\
  exists row,
    dashboard_version sess' = dashboard_version sess ++ [row] /\
    DashboardVersion_DashboardId row = Dashboard_Id d /\
    DashboardVersion_ParentVersion row = Restore_Version cmd /\
    DashboardVersion_RestoredFrom row = Restore_Version cmd /\
    DashboardVersion_Version row = Dashboard_Version d /\
    DashboardVersion_Created row = now /\
    DashboardVersion_CreatedBy row = Dashboard_UpdatedBy d /\
    DashboardVersion_Message row = "" /\
    DashboardVersion_Data row = Dashboard_Data d.
Proof.
  unfold update_and_append.
  destruct (sess_Update sess (Dashboard_Id d) d) as [[aff err] s1] eqn:Hu.
  apply sess_Update_spec in Hu as [-> Hu].
  destruct Hu as [(-> & _ & _)|(-> & old & Hold & Hd1 & Hv1)]; [done|].
  simpl.
  match goal with
  | |- context [sess_Insert s1 ?r] =>
      set (row := r); destruct (sess_Insert s1 row) as [[aff err] s2] eqn:Hi
  end.
  apply sess_Insert_spec in Hi
    as [(-> & [msg ->] & _ & _)|(-> & -> & Hfind & Hd2 & Hv2)]; [done|].
  simpl. intros [= <- <-].
  split; [done|]. split.
  { unfold find_version in *. by rewrite Hv1 in Hfind. }
  split; [exists old; by rewrite Hd2|].
  exists (stored s1 row). rewrite Hv2, Hv1. done.
Qed.


(** The kinds of failure the specification tells apart. *)
Inductive failure : Type :=
| NotFound
| Conflict
| UnsupportedFormat
| TypeMismatch
| OtherFailure.

(** The kind of each error of the code: the three not-found errors, the
    unsupported diff type, the type mismatch of the formatter, and the
    refusal of the database driver, which is how a conflicting write shows. *)
Definition failure_of (e : error) : failure :=
  match e with
  | ErrDashboardNotFound | ErrDashboardVersionNotFound
  | ErrNoVersionsForDashboardId => NotFound
  | ErrUnsupportedDiffType => UnsupportedFormat
  | ErrDriver _ => Conflict
  | errorString msg =>
      if decide (msg = "Type mismatch") then TypeMismatch else OtherFailure
  end.

(** C2, as amended.  When the update of the dashboard row matches no row,
    the transaction fails with the dashboard-not-found error; when the
    insertion of the version row meets a row with the same dashboard id and
    version number, it fails with the error of the driver.  In both cases the
    database is left as it was: the update, which the session had made in
    the second case, is rolled back. *)
Theorem update_and_append_atomic (cmd : RestoreDashboardVersionCommand)
  (d : Dashboard) (now : Z) (db : DB) :
  dashboard db !! Dashboard_Id d = None \/
  is_Some (find_version db (Dashboard_Id d) (Dashboard_Version d)) ->
  exists e,
    inTransaction (update_and_append cmd d now) db = (inr e, db) /\
    (dashboard db !! Dashboard_Id d = None -> e = ErrDashboardNotFound) /\
    (forall old,
       dashboard db !! Dashboard_Id d = Some old ->
       (exists msg, e = ErrDriver msg) /\
       dashboard (update_and_append cmd d now db).2
       = <[Dashboard_Id d := updated_row old d]> (dashboard db) /\
       dashboard_version (update_and_append cmd d now db).2
       = dashboard_version db).
Proof.
  intros Hcase. unfold inTransaction, update_and_append, sess_Update.
  destruct (dashboard db !! Dashboard_Id d) as [old|] eqn:Hold.
  - destruct Hcase as [|[r Hr]]; [done|]. simpl.
    unfold sess_Insert, find_version in *. simpl. rewrite Hr. simpl.
    eexists. split; [reflexivity|]. split; [done|].
    intros ? [= <-]. eauto.
  - simpl. exists ErrDashboardNotFound. split; [done|]. split; [done|].
    intros ?. done.
Qed.

(** ** The ASCII formatter *)

Definition is_container (v : value) : bool :=
  match v with
  | VMap _ | VSlice _ => true
  | _ => false
  end.

(** [Format] starts from an empty buffer and empty stacks. *)
Definition reset (f : AsciiFormatter) : AsciiFormatter :=
  set_stacks [] [] [] (set_buffer "" f).

(** C10.  When the left value is neither a map nor a slice, [Format] returns
    the empty string and an error naming the two expected types and the type
    it got; it returns without an error only when the left value is a map or
    a slice. *)
Theorem AsciiFormatter_Format_root (df : Diff) (f : AsciiFormatter) :
  (is_container (left f) = false ->
   AsciiFormatter_Format df f
   = Return
       ("",
        Some (errorString
                ("expected map[string]interface{} or []interface{}, got "
                 +:+ type_name (left f))))
       (reset f)) /\
  (forall result f',
     AsciiFormatter_Format df f = Return (result, None) f' ->
     is_container (left f) = true).
Proof.
  unfold AsciiFormatter_Format, bind, get, put, ret. simpl.
  split.
  - intros Hc. destruct (left f); simpl in Hc; try discriminate; reflexivity.
  - intros result f' Hr. destruct (left f); simpl; try reflexivity;
      discriminate Hr.
Qed.

(** With a map or a slice as left value, [Format] returns no error,
    whatever the deltas: the errors of [processItem] never reach it. *)
Lemma AsciiFormatter_Format_no_error (df : Diff) (f f' : AsciiFormatter)
  (result : string) (err : option error) :
  is_container (left f) = true ->
  AsciiFormatter_Format df f = Return (result, err) f' ->
  err = None.
Proof.
  unfold AsciiFormatter_Format, bind, get, put, ret. simpl.
  intros Hc Hr. destruct (left f); try discriminate Hc.
  - destruct (formatArray _ _ _); [|discriminate Hr]. by injection Hr as _ <- _.
  - destruct (formatObject _ _ _); [|discriminate Hr]. by injection Hr as _ <- _.
Qed.

Lemma string_app_cons (x : Ascii.ascii) (a b : string) :
  String x a +:+ b = String x (a +:+ b).
Proof. reflexivity. Qed.

Lemma string_app_assoc (a b c : string) : (a +:+ b) +:+ c = a +:+ b +:+ c.
Proof.
  induction a as [|x a IH]; [reflexivity|].
  rewrite !string_app_cons. by rewrite IH.
Qed.

Lemma string_app_nil_r (a : string) : a +:+ "" = a.
Proof.
  induction a as [|x a IH]; [reflexivity|].
  rewrite string_app_cons. by rewrite IH.
Qed.

Lemma drop_last_snoc {A} (l : list A) (x : A) : drop_last (l ++ [x]) = l.
Proof.
  unfold drop_last. rewrite length_app. simpl.
  replace (length l + 1 - 1)%nat with (length l) by lia.
  by rewrite take_app_length.
Qed.

(** The label in front of a value: the quoted key inside an object, the
    index inside an array when indices are shown. *)
Definition key_label (cfg : AsciiFormatterConfig) (array : bool)
  (name : string) : string :=
  if array then (if ShowArrayIndex cfg then name +:+ ": " else "")
  else quote +:+ name +:+ quote +:+ ": ".

(** The text of a scalar. *)
Definition scalar_text (v : value) : string :=
  match v with
  | VString s => quote +:+ s +:+ quote
  | VNil => "null"
  | VBool b => if b then "true" else "false"
  | VNumber n => number_text n
  | VSlice _ | VMap _ => ""
  end.

(** The comma after a value when siblings remain. *)
Definition comma (remaining : Z) : string :=
  if 0 <? remaining then "," else "".

(** One line of the output: marker, two spaces per level, content, line
    break, wrapped in its style when colouring is on and the marker has
    one. *)
Definition rendered_line (cfg : AsciiFormatterConfig) (marker_ : string)
  (level : nat) (content : string) : string :=
  let body := marker_ +:+ repeat_string level "  " +:+ content in
  match AsciiStyles marker_ with
  | Some style =>
      if Coloring cfg
      then ("<span class=" +:+ quote +:+ style +:+ quote +:+ ">") +:+
           body +:+ "</span>" +:+ newline
      else body +:+ newline
  | None => body +:+ newline
  end.

Lemma closeLine_run (f : AsciiFormatter) (l : AsciiLine) :
  line f = Some l ->
  closeLine f
  = Return tt
      (set_buffer
         (buffer f +:+
          rendered_line (config f) (marker l) (indent l) (line_buffer l)) f).
Proof.
  intros Hl. unfold closeLine, bind, get, buffer_write, ret, rendered_line.
  rewrite Hl. destruct f as [lf cfg buf pa sz ia li]; simpl in *.
  destruct (AsciiStyles (marker l)) as [style|]; [destruct (Coloring cfg)|];
    unfold set_buffer; simpl; rewrite ?string_app_assoc; reflexivity.
Qed.

Lemma bind_Return {A B} (m : Fmt A) (k : A -> Fmt B) (f f' : AsciiFormatter)
  (a : A) :
  m f = Return a f' -> bind m k f = k a f'.
Proof. intros Hm. unfold bind. by rewrite Hm. Qed.

(** A line with [s] appended to its content. *)
Definition line_append (l : AsciiLine) (s : string) : AsciiLine :=
  {| marker := marker l; indent := indent l;
     line_buffer := line_buffer l +:+ s |}.

Lemma line_append_nil (l : AsciiLine) : line_append l "" = l.
Proof.
  destruct l. unfold line_append. simpl. by rewrite string_app_nil_r.
Qed.

Lemma line_write_run (s : string) (f : AsciiFormatter) (l : AsciiLine) :
  line f = Some l ->
  line_write s f = Return tt (set_line (Some (line_append l s)) f).
Proof. intros Hl. unfold line_write. by rewrite Hl. Qed.

Lemma printKey_run (name : string) (f : AsciiFormatter) (l : AsciiLine)
  (a : list bool) (b : bool) :
  inArray f = a ++ [b] -> line f = Some l ->
  printKey name f
  = Return tt
      (set_line (Some (line_append l (key_label (config f) b name))) f).
Proof.
  intros Ha Hl. unfold printKey, bind, get. rewrite Ha, last_snoc.
  unfold key_label. destruct b.
  - destruct (ShowArrayIndex (config f)).
    + by apply line_write_run.
    + rewrite line_append_nil. unfold ret.
      destruct f; simpl in *; by subst.
  - by apply line_write_run.
Qed.

Lemma printValue_run (v : value) (f : AsciiFormatter) (l : AsciiLine) :
  is_container v = false -> line f = Some l ->
  printValue v f
  = Return tt (set_line (Some (line_append l (scalar_text v))) f).
Proof.
  intros Hv Hl. destruct v; try discriminate Hv; simpl;
    by apply line_write_run.
Qed.

Lemma last_size_run (f : AsciiFormatter) (s : list Z) (n : Z) :
  size f = s ++ [n] -> last_size f = Return n f.
Proof. intros Hs. unfold last_size. by rewrite Hs, last_snoc. Qed.

Lemma set_last_size_run (m : Z) (f : AsciiFormatter) (s : list Z) (n : Z) :
  size f = s ++ [n] ->
  set_last_size m f = Return tt (set_size (s ++ [m]) f).
Proof.
  intros Hs. unfold set_last_size. rewrite Hs, drop_last_snoc.
  by destruct s.
Qed.

Lemma printComma_run (f : AsciiFormatter) (l : AsciiLine) (s : list Z)
  (n : Z) :
  size f = s ++ [n] -> line f = Some l ->
  printComma f
  = Return tt
      (set_line (Some (line_append l (comma (int_wrap (n - 1)))))
         (set_size (s ++ [int_wrap (n - 1)]) f)).
Proof.
  intros Hs Hl. unfold printComma.
  erewrite bind_Return by (by eapply last_size_run).
  erewrite bind_Return by (by eapply set_last_size_run).
  erewrite bind_Return by (by eapply last_size_run).
  unfold comma. destruct (0 <? int_wrap (n - 1)).
  - by apply line_write_run.
  - rewrite line_append_nil. unfold ret.
    destruct f; simpl in *; by subst.
Qed.

Lemma printLeaf_run (name : string) (v : value) (marker_ : string)
  (f : AsciiFormatter) (s : list Z) (n : Z) (a : list bool) (b : bool) :
  size f = s ++ [n] -> inArray f = a ++ [b] -> is_container v = false ->
  let content :=
    key_label (config f) b name +:+ scalar_text v +:+
    comma (int_wrap (n - 1)) in
  printLeaf name v marker_ f
  = Return tt
      {| left := left f; config := config f;
         buffer := buffer f +:+
                   rendered_line (config f) marker_ (length (path f)) content;
         path := path f; size := s ++ [int_wrap (n - 1)];
         inArray := inArray f;
         line := Some {| marker := marker_; indent := length (path f);
                         line_buffer := content |} |}.
Proof.
  intros Hs Ha Hv content. unfold printLeaf.
  erewrite bind_Return by reflexivity.
  erewrite bind_Return by (eapply printKey_run; [exact Ha|reflexivity]).
  erewrite bind_Return by (eapply printValue_run; [exact Hv|reflexivity]).
  erewrite bind_Return by (eapply printComma_run; [exact Hs|reflexivity]).
  erewrite closeLine_run by reflexivity.
  unfold newLine, line_append, set_buffer, set_line, set_size. simpl.
  rewrite !string_app_assoc. reflexivity.
Qed.


Lemma for_each_return_fmap {A B} (g : A -> B) (l : list A)
  (body : B -> Fmt (option error)) :
  for_each_return (g <$> l) body = for_each_return l (fun x => body (g x)).
Proof.
  induction l as [|x l IH]; [reflexivity|].
  rewrite fmap_cons. simpl. by rewrite IH.
Qed.

Lemma filter_with_handlers (position : Position) (deltas : list Delta) :
  filter (fun d : Delta * handler => search_position d.1 = position)
    (with_handlers deltas)
  = with_handlers (searchDeltas deltas position).
Proof.
  unfold with_handlers, searchDeltas.
  induction deltas as [|d deltas IH]; [reflexivity|].
  rewrite fmap_cons, !filter_cons. simpl.
  destruct (decide (search_position d = position)); by rewrite IH.
Qed.

(** [processItem] as the source has it: the matched deltas are handled in
    turn, and an item without a delta is printed unchanged. *)
Lemma processItem_eq (v : value) (deltas : list Delta) (position : Position) :
  processItem v deltas position
  = let matchedDeltas := searchDeltas deltas position in
    let positionStr := Position_String position in
    if 0 <? len matchedDeltas
    then for_each_return matchedDeltas
           (fun matchedDelta => processDelta matchedDelta v positionStr)
    else (printRecursive positionStr v AsciiSame ;; ret None).
Proof.
  unfold processItem, processItem_with. rewrite filter_with_handlers.
  unfold with_handlers, len. rewrite length_fmap, for_each_return_fmap.
  reflexivity.
Qed.








(** ** The tree diff engine *)

Lemma omap_all_None {A B} (g : A -> option B) (l : list A) :
  (forall x, x ∈ l -> g x = None) -> omap g l = [].
Proof.
  induction l as [|x l IH]; intros Hg; [reflexivity|].
  simpl. rewrite (Hg x) by apply list_elem_of_here.
  apply IH. intros y Hy. apply Hg. by apply list_elem_of_further.
Qed.

Lemma compare_at_refl (v : value) :
  forall position, compare_at position v v = None.
Proof.
  induction v as [| b | n | s | items IH | members IH] using value_ind';
    intros position; simpl.
  - reflexivity.
  - by rewrite bool_decide_eq_true_2.
  - by rewrite bool_decide_eq_true_2.
  - by rewrite bool_decide_eq_true_2.
  - match goal with
    | |- context [?each 0 items items] =>
        assert (Hnil : forall i, each i items items = [])
    end.
    { induction IH as [|x l Hx _ IHl]; intros i; [reflexivity|].
      rewrite Hx. apply IHl. }
    by rewrite Hnil.
  - rewrite omap_all_None; [reflexivity|].
    intros k _. clear position.
    induction IH as [|[k' x] l Hx _ IHl]; [reflexivity|].
    simpl in *. destruct (decide (k' = k)) as [->|Hne].
    + apply Hx.
    + match goal with
      | |- context [list_find ?P ?l'] =>
          destruct (list_find P l') as [[i [k'' [x' rec]]]|] eqn:Hfind
      end; simpl; destruct (map_get l k); exact IHl.
Qed.

Lemma Compare_refl (v : value) : Compare v v = mkDiff [].
Proof. unfold Compare. by rewrite compare_at_refl. Qed.

(** ** Comparing two versions *)

(** A lookup that returned a row. *)
Definition found {A} (r : A + error) : Prop := exists a, r = inl a.

Definition recognized (diffType : Z) : Prop :=
  diffType = DiffDelta \/ diffType = DiffJSON \/ diffType = DiffBasic.

Lemma Compare_not_nil (a b : value) : Compare a b <> nilDiff.
Proof.
  unfold Compare.
  destruct (compare_at (Name "") a b) as [[]|]; discriminate.
Qed.

Lemma getDiff_returns (a b : DashboardVersion) :
  exists left_ jsonDiff, getDiff a b = Returns (left_, jsonDiff, None).
Proof.
  unfold getDiff.
  pose proof (Compare_not_nil (DashboardVersion_json a)
                (DashboardVersion_json b)) as Hnil.
  destruct (Compare (DashboardVersion_json a) (DashboardVersion_json b))
    as [|deltas]; [done|].
  simpl. destruct (bool_decide (deltas <> [])); eauto.
Qed.

(** The error of the lookups of [CompareDashboardVersionsCommand], if one
    fails: that of the original version, which is looked up first, or else
    that of the new version. *)
Definition lookup_error (cmd : CompareDashboardVersionsCommand) (db : DB)
  : option error :=
  match getDashboardVersion db (Compare_DashboardId cmd)
          (Compare_Original cmd) with
  | inr err => Some err
  | inl _ =>
      match getDashboardVersion db (Compare_DashboardId cmd)
              (Compare_New cmd) with
      | inr err => Some err
      | inl _ => None
      end
  end.

(** C9, as amended.  With a diff type that is none of the three recognized
    values, [CompareDashboardVersionsCommand] returns an error and leaves the
    command, its [Delta] included, as it was; the error is the
    unsupported-diff-type error when both versions are found, and the error
    of the lookup otherwise: the lookups are made first, whatever the diff
    type, and a lookup that fails returns the version-not-found error.  With
    a recognized diff type and both versions found, the result is that of
    the renderer of that type, run on the diff (and, for the JSON and basic
    renderers, on the left document). *)
Theorem CompareDashboardVersions_dispatch
  (DeltaFormatter_Format : Diff -> call (string * option error))
  (JSONFormatter_Format BasicFormatter_Format
     : value -> Diff -> call (string * option error))
  (cmd : CompareDashboardVersionsCommand) (db : DB) :
  let run :=
    CompareDashboardVersions DeltaFormatter_Format JSONFormatter_Format
      BasicFormatter_Format cmd db in
  (~ recognized (Compare_DiffType cmd) ->
   run = Returns (cmd, Some (default ErrUnsupportedDiffType
                               (lookup_error cmd db)))) /\
  (forall err, lookup_error cmd db = Some err ->
               err = ErrDashboardVersionNotFound /\
               run = Returns (cmd, Some err)) /\
  (forall original newDashboard left_ jsonDiff,
     getDashboardVersion db (Compare_DashboardId cmd) (Compare_Original cmd)
       = inl original ->
     getDashboardVersion db (Compare_DashboardId cmd) (Compare_New cmd)
       = inl newDashboard ->
     getDiff original newDashboard = Returns (left_, jsonDiff, None) ->
     (Compare_DiffType cmd = DiffDelta ->
      run = render cmd (DeltaFormatter_Format jsonDiff)) /\
     (Compare_DiffType cmd = DiffJSON ->
      run = render cmd (JSONFormatter_Format left_ jsonDiff)) /\
     (Compare_DiffType cmd = DiffBasic ->
      run = render cmd (BasicFormatter_Format left_ jsonDiff))).
Proof.
  intros run. subst run.
  assert (Hlookup : forall version e,
    getDashboardVersion db (Compare_DashboardId cmd) version = inr e ->
    e = ErrDashboardVersionNotFound).
  { intros version e. unfold getDashboardVersion.
    destruct (find_version _ _ _); [done|]. by intros [= <-]. }
  unfold CompareDashboardVersions, recognized, lookup_error.
  split; [|split].
  - intros Hun.
    destruct (getDashboardVersion db _ (Compare_Original cmd)) as [o|e];
      [|done].
    destruct (getDashboardVersion db _ (Compare_New cmd)) as [n|e]; [|done].
    destruct (getDiff_returns o n) as (l & df & ->).
    repeat case_decide; tauto.
  - intros err.
    destruct (getDashboardVersion db _ (Compare_Original cmd)) as [o|e]
      eqn:Ho.
    2:{ intros [= <-]. split; [by eapply Hlookup|done]. }
    destruct (getDashboardVersion db _ (Compare_New cmd)) as [n|e] eqn:Hn;
      [done|].
    intros [= <-]. split; [by eapply Hlookup|done].
  - intros original newDashboard left_ jsonDiff -> -> ->.
    unfold DiffDelta, DiffJSON, DiffBasic.
    repeat split; intros ->; reflexivity.
Qed.

(** ** The loops of the formatter, as the source has them *)

Lemma for_each_ext {A} (l : list A) (body body' : A -> Fmt unit) :
  (forall x, x ∈ l -> body x = body' x) -> for_each l body = for_each l body'.
Proof.
  induction l as [|x l IH]; intros Hb; [reflexivity|].
  simpl. rewrite (Hb x) by apply list_elem_of_here.
  rewrite IH; [reflexivity|].
  intros y Hy. apply Hb. by apply list_elem_of_further.
Qed.


Lemma for_each_fmap {A B} (g : A -> B) (l : list A) (body : B -> Fmt unit) :
  for_each (g <$> l) body = for_each l (fun x => body (g x)).
Proof.
  induction l as [|x l IH]; [reflexivity|].
  rewrite fmap_cons. simpl. by rewrite IH.
Qed.

Lemma printRecursive_nil (name marker_ : string) :
  printRecursive name VNil marker_ = printLeaf name VNil marker_.
Proof. reflexivity. Qed.

(** The members of a map are printed in the order of [sortedKeys], each
    under its key. *)
Lemma printRecursive_map (name : string) (m : list (string * value))
  (marker_ : string) :
  printRecursive name (VMap m) marker_
  = (newLine marker_ ;;
     printKey name ;;
     print "{" ;;
     closeLine ;;
     push name (len m) false ;;
     for_each (sortedKeys m)
       (fun key => printRecursive key (map_index m key) marker_) ;;
     pop ;;
     newLine marker_ ;;
     print "}" ;;
     printComma ;;
     closeLine).
Proof.
  simpl. erewrite for_each_ext; [reflexivity|].
  intros key _. simpl. unfold map_index.
  induction m as [|[k x] m IH]; [reflexivity|].
  simpl. destruct (decide (k = key)) as [->|Hne]; [reflexivity|].
  rewrite <- IH.
  match goal with
  | |- context [list_find ?P ?l] => by destruct (list_find P l) as [[? [? ?]]|]
  end.
Qed.

(** The items of a slice are printed in order, without a name. *)
Lemma printRecursive_slice (name : string) (s : list value)
  (marker_ : string) :
  printRecursive name (VSlice s) marker_
  = (newLine marker_ ;;
     printKey name ;;
     print "[" ;;
     closeLine ;;
     push "" (len s) true ;;
     for_each s (fun item => printRecursive "" item marker_) ;;
     pop ;;
     newLine marker_ ;;
     print "]" ;;
     printComma ;;
     closeLine).
Proof.
  simpl.
  match goal with
  | |- context [bind (?each s) _] =>
      assert (Hl : each s
                   = for_each s (fun item => printRecursive "" item marker_));
        [|by rewrite Hl]
  end.
  induction s as [|item s IH]; [reflexivity|].
  simpl. by rewrite IH.
Qed.

Lemma with_handlers_fst (deltas : list Delta) :
  (with_handlers deltas).*1 = deltas.
Proof.
  unfold with_handlers. rewrite <- list_fmap_compose.
  induction deltas as [|d deltas IH]; [reflexivity|].
  rewrite fmap_cons. simpl. by rewrite IH.
Qed.

(** [processObject]: the members in the order of [sortedKeys], then the
    added members in the order of the deltas. *)
Lemma processObject_eq (object : list (string * value))
  (deltas : list Delta) :
  processObject object deltas
  = (for_each (sortedKeys object)
       (fun name =>
          processItem (map_index object name) deltas (Name name) ;; ret tt) ;;
     for_each deltas printAdded ;;
     ret None).
Proof.
  unfold processObject, processObject_with. by rewrite with_handlers_fst.
Qed.

Lemma processArray_eq (array : list value) (deltas : list Delta) :
  processArray array deltas
  = (for_each (imap (fun index v => (Z.of_nat index, v)) array)
       (fun iv => processItem iv.2 deltas (Index iv.1) ;; ret tt) ;;
     for_each deltas (printAddedBeyond array) ;;
     ret None).
Proof.
  unfold processArray, processArray_with. by rewrite with_handlers_fst.
Qed.

Lemma processDelta_Object (p : Position) (deltas : list Delta)
  (o : list (string * value)) (positionStr : string) :
  processDelta (Object p deltas) (VMap o) positionStr
  = (newLine AsciiSame ;;
     printKey positionStr ;;
     print "{" ;;
     closeLine ;;
     push positionStr (len o) false ;;
     processObject o deltas ;;
     pop ;;
     newLine AsciiSame ;;
     print "}" ;;
     printComma ;;
     closeLine ;;
     ret None).
Proof. reflexivity. Qed.

Lemma processDelta_Array (p : Position) (deltas : list Delta)
  (a : list value) (positionStr : string) :
  processDelta (Array p deltas) (VSlice a) positionStr
  = (newLine AsciiSame ;;
     printKey positionStr ;;
     print "[" ;;
     closeLine ;;
     push positionStr (len a) true ;;
     processArray a deltas ;;
     pop ;;
     newLine AsciiSame ;;
     print "]" ;;
     printComma ;;
     closeLine ;;
     ret None).
Proof. reflexivity. Qed.

(** Induction on a delta, with the hypothesis for the deltas inside an
    [Object] or an [Array]. *)
Lemma Delta_ind' (P : Delta -> Prop) :
  (forall p deltas, Forall P deltas -> P (Object p deltas)) ->
  (forall p deltas, Forall P deltas -> P (Array p deltas)) ->
  (forall p v, P (Added p v)) ->
  (forall p o n, P (Modified p o n)) ->
  (forall p o n, P (TextDiff p o n)) ->
  (forall p v, P (Deleted p v)) ->
  (forall pre post v, P (Moved pre post v)) ->
  forall d, P d.
Proof.
  intros HObject HArray HAdded HModified HTextDiff HDeleted HMoved.
  fix IH 1. intros [p ds | p ds | p v | p o n | p o n | p v | pre post v].
  - apply HObject. induction ds as [|d ds IHds]; constructor;
      [apply IH | exact IHds].
  - apply HArray. induction ds as [|d ds IHds]; constructor;
      [apply IH | exact IHds].
  - apply HAdded.
  - apply HModified.
  - apply HTextDiff.
  - apply HDeleted.
  - apply HMoved.
Qed.

(** ** The stacks of the formatter *)

















(** ** Modified values *)

Lemma for_each_return_single {A} (x : A) (body : A -> Fmt (option error))
  (f : AsciiFormatter) :
  for_each_return [x] body f = body x f.
Proof.
  simpl. unfold bind. by destruct (body x f) as [[e|] f'|].
Qed.




(** ** What the formatter leaves alone *)

(** A method that, when it returns, has left the [left] value and the
    configuration of the formatter as they were. *)
Definition keeps_left {A} (m : Fmt A) : Prop :=
  forall f a f', m f = Return a f' -> left f' = left f /\ config f' = config f.

Create HintDb keeps discriminated.

Lemma keeps_ret {A} (a : A) : keeps_left (ret a).
Proof. intros f a' f' [= <- <-]. done. Qed.

Lemma keeps_throw {A} (p : panic) : keeps_left (@throw _ A p).
Proof. intros f a f' Hr. discriminate Hr. Qed.

Lemma keeps_get : keeps_left get.
Proof. intros f a f' [= <- <-]. done. Qed.

Lemma keeps_bind {A B} (m : Fmt A) (k : A -> Fmt B) :
  keeps_left m -> (forall a, keeps_left (k a)) -> keeps_left (bind m k).
Proof.
  intros Hm Hk f b f' Hr. unfold bind in Hr.
  destruct (m f) as [a f1|p] eqn:Hmf; [|discriminate Hr].
  destruct (Hm _ _ _ Hmf) as [Hl Hc].
  destruct (Hk a _ _ _ Hr) as [Hl' Hc'].
  split; congruence.
Qed.

Lemma keeps_for_each {A} (l : list A) (body : A -> Fmt unit) :
  (forall x, x ∈ l -> keeps_left (body x)) -> keeps_left (for_each l body).
Proof.
  induction l as [|x l IH]; intros Hb; simpl.
  - apply keeps_ret.
  - apply keeps_bind; [apply Hb, list_elem_of_here|].
    intros _. apply IH. intros y Hy. apply Hb. by apply list_elem_of_further.
Qed.

Lemma keeps_for_each_return {A} (l : list A)
  (body : A -> Fmt (option error)) :
  (forall x, x ∈ l -> keeps_left (body x)) ->
  keeps_left (for_each_return l body).
Proof.
  induction l as [|x l IH]; intros Hb; simpl.
  - apply keeps_ret.
  - apply keeps_bind; [apply Hb, list_elem_of_here|].
    intros [e|]; [apply keeps_ret|].
    apply IH. intros y Hy. apply Hb. by apply list_elem_of_further.
Qed.

Lemma keeps_push name n array : keeps_left (push name n array).
Proof. intros f a f' [= <- <-]. done. Qed.

Lemma keeps_pop : keeps_left pop.
Proof.
  intros f a f' Hr. unfold pop in Hr.
  destruct (path f), (size f), (inArray f); try discriminate Hr;
    injection Hr as <- <-; done.
Qed.

Lemma keeps_buffer_write s : keeps_left (buffer_write s).
Proof. intros f a f' [= <- <-]. done. Qed.

Lemma keeps_line_write s : keeps_left (line_write s).
Proof.
  intros f a f' Hr. unfold line_write in Hr.
  destruct (line f); [|discriminate Hr]. injection Hr as <- <-. done.
Qed.

Lemma keeps_newLine marker_ : keeps_left (newLine marker_).
Proof. intros f a f' [= <- <-]. done. Qed.

Lemma keeps_last_size : keeps_left last_size.
Proof.
  intros f a f' Hr. unfold last_size in Hr.
  destruct (last (size f)); [|discriminate Hr]. injection Hr as <- <-. done.
Qed.

Lemma keeps_set_last_size n : keeps_left (set_last_size n).
Proof.
  intros f a f' Hr. unfold set_last_size in Hr.
  destruct (size f); [discriminate Hr|]. injection Hr as <- <-. done.
Qed.

#[local] Hint Resolve keeps_ret keeps_throw keeps_get keeps_push keeps_pop
  keeps_buffer_write keeps_line_write keeps_newLine keeps_last_size
  keeps_set_last_size : keeps.

#[local] Hint Extern 2 (keeps_left (bind _ _)) =>
  apply keeps_bind; [|intros ?] : keeps.
#[local] Hint Extern 3 (keeps_left (match ?x with _ => _ end)) =>
  destruct x : keeps.
#[local] Hint Extern 3 (keeps_left (if ?x then _ else _)) =>
  destruct x : keeps.

Lemma keeps_closeLine : keeps_left closeLine.
Proof. unfold closeLine. auto 20 with keeps. Qed.

Lemma keeps_printKey name : keeps_left (printKey name).
Proof. unfold printKey. auto 20 with keeps. Qed.

Lemma keeps_printComma : keeps_left printComma.
Proof. unfold printComma. auto 20 with keeps. Qed.

Lemma keeps_printValue v : keeps_left (printValue v).
Proof. unfold printValue. auto 20 with keeps. Qed.

Lemma keeps_print a : keeps_left (print a).
Proof. apply keeps_line_write. Qed.

#[local] Hint Resolve keeps_closeLine keeps_printKey keeps_printComma
  keeps_printValue keeps_print : keeps.

Lemma keeps_printLeaf name v marker_ : keeps_left (printLeaf name v marker_).
Proof. unfold printLeaf. auto 20 with keeps. Qed.

#[local] Hint Resolve keeps_printLeaf : keeps.

Ltac keeps_step :=
  apply keeps_bind; [solve [auto 20 with keeps]|intros _].

Lemma keeps_printRecursive (v : value) :
  forall name marker_, keeps_left (printRecursive name v marker_).
Proof.
  induction v as [| b | n | s | items IH | members IH] using value_ind';
    intros name marker_; try apply keeps_printLeaf.
  - rewrite printRecursive_slice.
    repeat keeps_step.
    apply keeps_bind; [|intros _; auto 20 with keeps].
    apply keeps_for_each. intros item Hitem.
    rewrite Forall_forall in IH. by apply IH.
  - rewrite printRecursive_map.
    repeat keeps_step.
    apply keeps_bind; [|intros _; auto 20 with keeps].
    apply keeps_for_each. intros key _. unfold map_index.
    destruct (map_get members key) as [x|] eqn:Hget; simpl.
    + apply map_get_elem in Hget. rewrite Forall_forall in IH.
      apply (IH _ Hget).
    + apply keeps_printLeaf.
Qed.

#[local] Hint Resolve keeps_printRecursive : keeps.

Lemma keeps_printAdded d : keeps_left (printAdded d).
Proof. unfold printAdded. destruct d; auto with keeps. Qed.

Lemma keeps_printAddedBeyond array d : keeps_left (printAddedBeyond array d).
Proof.
  unfold printAddedBeyond. destruct d as [| |[]| | | |]; auto with keeps.
Qed.

#[local] Hint Resolve keeps_printAdded keeps_printAddedBeyond : keeps.

Lemma keeps_processItem (v : value) (deltas : list Delta)
  (position : Position) :
  Forall (fun d => forall v s, keeps_left (processDelta d v s)) deltas ->
  keeps_left (processItem v deltas position).
Proof.
  intros Hds. rewrite processItem_eq. simpl.
  destruct (0 <? len (searchDeltas deltas position)).
  - apply keeps_for_each_return. intros d Hd.
    apply list_elem_of_filter in Hd as [_ Hd].
    rewrite Forall_forall in Hds. by apply Hds.
  - auto with keeps.
Qed.

Lemma keeps_processDelta (d : Delta) :
  forall v s, keeps_left (processDelta d v s).
Proof.
  induction d as [p ds IH | p ds IH | | | | | ] using Delta_ind';
    intros val s.
  - destruct val; try apply keeps_ret.
    rewrite processDelta_Object.
    repeat keeps_step.
    apply keeps_bind; [|intros _; auto 20 with keeps].
    rewrite processObject_eq.
    apply keeps_bind; [|intros _; apply keeps_bind; [|auto with keeps]].
    + apply keeps_for_each. intros name _.
      apply keeps_bind; [by apply keeps_processItem|auto with keeps].
    + apply keeps_for_each. auto with keeps.
  - destruct val; try apply keeps_ret.
    rewrite processDelta_Array.
    repeat keeps_step.
    apply keeps_bind; [|intros _; auto 20 with keeps].
    rewrite processArray_eq.
    apply keeps_bind; [|intros _; apply keeps_bind; [|auto with keeps]].
    + apply keeps_for_each. intros iv _.
      apply keeps_bind; [by apply keeps_processItem|auto with keeps].
    + apply keeps_for_each. auto with keeps.
  - simpl. auto 20 with keeps.
  - simpl. auto 20 with keeps.
  - simpl. auto 20 with keeps.
  - simpl. auto 20 with keeps.
  - simpl. auto with keeps.
Qed.

Lemma keeps_processObject object deltas :
  keeps_left (processObject object deltas).
Proof.
  rewrite processObject_eq.
  apply keeps_bind; [|intros _; apply keeps_bind; [|auto with keeps]].
  - apply keeps_for_each. intros name _.
    apply keeps_bind; [|auto with keeps].
    apply keeps_processItem, Forall_forall. intros d _.
    apply keeps_processDelta.
  - apply keeps_for_each. auto with keeps.
Qed.

Lemma keeps_processArray array deltas :
  keeps_left (processArray array deltas).
Proof.
  rewrite processArray_eq.
  apply keeps_bind; [|intros _; apply keeps_bind; [|auto with keeps]].
  - apply keeps_for_each. intros iv _.
    apply keeps_bind; [|auto with keeps].
    apply keeps_processItem, Forall_forall. intros d _.
    apply keeps_processDelta.
  - apply keeps_for_each. auto with keeps.
Qed.

Lemma keeps_addLineWith marker_ value_ :
  keeps_left (addLineWith marker_ value_).
Proof.
  intros f a f' Hr. unfold addLineWith, bind, get, put in Hr.
  apply keeps_closeLine in Hr. exact Hr.
Qed.

Lemma keeps_Diff_Deltas df : keeps_left (Diff_Deltas df).
Proof. destruct df; simpl; auto with keeps. Qed.

#[local] Hint Resolve keeps_processObject keeps_processArray
  keeps_addLineWith keeps_Diff_Deltas : keeps.




(** ** The printer and its left value *)

Definition is_map (v : value) : bool :=
  match v with
  | VMap _ => true
  | _ => false
  end.

(** The keys of a map, in the order of its members. *)
Definition top_keys (v : value) : list string :=
  match v with
  | VMap m => m.*1
  | _ => []
  end.






(** The nested calls of [Printer.Format], by key of the right map. *)
Fixpoint nested_calls (rightMap : list (string * value))
  : list (string * option (Printer -> value -> list Delta ->
                           Printer * value)) :=
  match rightMap with
  | [] => []
  | (k, rightK) :: l =>
      (k,
       match rightK with
       | VMap _ => Some (fun p leftK ds => Printer_Format p leftK rightK ds)
       | _ => None
       end) :: nested_calls l
  end.

Lemma Printer_Format_eq (p : Printer) (left_ right_ : value)
  (deltas : list Delta) :
  Printer_Format p left_ right_ deltas
  = let p1 := set_indentation (int_wrap (indentation p + 1)) p in
    let merged := mapMerge left_ right_ in
    let nested :=
      match right_ with
      | VMap rightMap => nested_calls rightMap
      | _ => []
      end in
    let (p2, after) :=
      match merged with
      | VMap v =>
          let (p2, v') :=
            fold_left (format_member (deltaToMap deltas) nested) v (p1, []) in
          (p2, VMap v')
      | _ => (p1, merged)
      end in
    (set_indentation (int_wrap (indentation p2 - 1)) p2, after).
Proof. destruct right_; reflexivity. Qed.






(** ** The order of the keys *)

(** Two values that hold the same document: equal scalars, slices with the
    same documents item by item, maps with the same documents under the same
    keys, in whatever order the members come. *)
Inductive same_document : value -> value -> Prop :=
| same_scalar (v : value) : is_container v = false -> same_document v v
| same_slice (l l' : list value) :
    Forall2 same_document l l' -> same_document (VSlice l) (VSlice l')
| same_map (m m' : list (string * value)) :
    NoDup m.*1 -> NoDup m'.*1 ->
    (forall k, option_Forall2 same_document (map_get m k) (map_get m' k)) ->
    same_document (VMap m) (VMap m').



Lemma sortedKeys_Permutation (m : list (string * value)) :
  sortedKeys m ≡ₚ m.*1.
Proof. apply (merge_sort_Permutation String.le). Qed.














(** The diff of two values that hold the same document is empty. *)
Lemma compare_at_same (v : value) :
  forall v' position, same_document v v' -> compare_at position v v' = None.
Proof.
  induction v as [| b | n | s | items IH | members IH] using value_ind';
    intros v' position Hsame;
    inversion Hsame as [x Hx | l l' Hl | m m' Hn Hn' Hget]; subst;
    try apply compare_at_refl; try discriminate.
  - simpl.
    match goal with
    | |- context [?each 0 items l'] =>
        assert (Hnil : forall i, each i items l' = [])
    end.
    { clear Hsame. induction Hl as [|x y l k Hxy _ IHl]; intros i;
        [reflexivity|].
      apply Forall_cons in IH as [Hx Hrest].
      rewrite (Hx y _ Hxy). by apply IHl. }
    by rewrite Hnil.
  - simpl. rewrite omap_all_None; [reflexivity|].
    intros k _. specialize (Hget k). clear Hsame Hn position.
    induction IH as [|[k' x] l Hx _ IHl].
    + simpl in *. by inversion Hget.
    + simpl in *. destruct (decide (k' = k)) as [->|Hne].
      * inversion Hget as [x' y Hxy|]; subst. by apply Hx.
      * match goal with
        | |- context [list_find ?P ?l'] =>
            destruct (list_find P l') as [[i [k'' [x' rec]]]|] eqn:Hfind
        end; simpl; by apply IHl.
Qed.

(** C6.  [getDiff] of a version and itself, and of any two versions whose
    documents are the same, returns the no-changes result: a [nil] left
    document, a [nil] diff and no error.  That [nil] diff is no diff holding
    deltas, whatever they are, an empty [Object] or [Array] among them. *)
Theorem getDiff_same (a : DashboardVersion) :
  getDiff a a = Returns (VNil, nilDiff, None) /\
  (forall b,
     same_document (DashboardVersion_json a) (DashboardVersion_json b) ->
     getDiff a b = Returns (VNil, nilDiff, None)) /\
  (forall v : value, Compare v v = mkDiff []) /\
  (forall deltas, nilDiff <> mkDiff deltas).
Proof.
  split; [|split; [|split]].
  - unfold getDiff. by rewrite Compare_refl.
  - intros b Hsame. unfold getDiff, Compare.
    by rewrite (compare_at_same _ _ _ Hsame).
  - apply Compare_refl.
  - intros deltas. discriminate.
Qed.

End Properties.

(** * The definitions at work *)

#[local] Existing Instance IntNumber.

(** A number of the integer instance. *)
Definition num (z : Z) : value := @VNumber IntNumber z.

(** A dashboard with two versions. *)
Definition version_row (id parent version : Z) (message : string)
  (data : value) : DashboardVersion :=
  {| DashboardVersion_Id := id;
     DashboardVersion_DashboardId := 7;
     DashboardVersion_ParentVersion := parent;
     DashboardVersion_RestoredFrom := 0;
     DashboardVersion_Version := version;
     DashboardVersion_Created := 0;
     DashboardVersion_CreatedBy := 1;
     DashboardVersion_Message := message;
     DashboardVersion_Data := data |}.

Definition example_db : DB :=
  {| dashboard :=
       {[ 7 := {| Dashboard_Id := 7; Dashboard_Version := 2;
                  Dashboard_Data := VMap [("a", num 2); ("b", num 3)];
                  Dashboard_Updated := 0; Dashboard_UpdatedBy := 1 |} ]};
     dashboard_version :=
       [version_row 1 0 1 "first" (VMap [("a", num 1)]);
        version_row 2 1 2 "second" (VMap [("a", num 2); ("b", num 3)])]
  |}.

Definition example_restore : RestoreDashboardVersionCommand :=
  {| Restore_DashboardId := 7; Restore_Version := 1; Restore_UserId := 9;
     Restore_Result := None |}.

(** A database without the dashboard. *)
Definition empty_db : DB := {| dashboard := ∅; dashboard_version := [] |}.

Definition example_dashboard : Dashboard :=
  {| Dashboard_Id := 7; Dashboard_Version := 3;
     Dashboard_Data := VMap [("a", num 1)];
     Dashboard_Updated := 100; Dashboard_UpdatedBy := 9 |}.

(** The formatter inside the root object [{"a": 1}], before its only
    member. *)
Definition inside_root : AsciiFormatter :=
  {| left := VMap [("a", num 1)];
     config := AsciiFormatterDefaultConfig;
     buffer := ""; path := ["ROOT"]; size := [1]; inArray := [false];
     line := None |}.

(** The dashboard of the example as it is stored, and the first of its
    versions. *)
Definition live_dashboard : Dashboard :=
  {| Dashboard_Id := 7; Dashboard_Version := 2;
     Dashboard_Data := VMap [("a", num 2); ("b", num 3)];
     Dashboard_Updated := 0; Dashboard_UpdatedBy := 1 |}.

Definition first_version : DashboardVersion :=
  version_row 1 0 1 "first" (VMap [("a", num 1)]).

Lemma example_live : dashboard example_db !! 7 = Some live_dashboard.
Proof. reflexivity. Qed.



(** The version row appended when the dashboard of the example is restored
    to version 1. *)
Definition restored_version : DashboardVersion :=
  {| DashboardVersion_Id := 3;
     DashboardVersion_DashboardId := 7;
     DashboardVersion_ParentVersion := 1;
     DashboardVersion_RestoredFrom := 1;
     DashboardVersion_Version := 3;
     DashboardVersion_Created := 101;
     DashboardVersion_CreatedBy := 9;
     DashboardVersion_Message := "";
     DashboardVersion_Data :=
       VMap [("a", num 1); ("id", num 7); ("version", num 3);
             ("restoredFrom", num 1)] |}.

Lemma example_restore_rows :
  dashboard_version
    (RestoreDashboardVersion example_restore 100 101 example_db).2
  = dashboard_version example_db ++ [restored_version].
Proof. vm_compute. reflexivity. Qed.


(** C1, as stated, fails on the payload: the stored payload of version 1 is
    the object with the one field ["a"], and the payload of the restored
    version carries the field ["id"] besides the version field and the
    restored-from marker. *)
Lemma RestoreDashboardVersion_payload_counterexample :
  find_version example_db 7 1 = Some first_version /\
  DashboardVersion_Data first_version = VMap [("a", num 1)] /\
  exists row,
    dashboard_version
      (RestoreDashboardVersion example_restore 100 101 example_db).2
    = dashboard_version example_db ++ [row] /\
    DashboardVersion_Data row
    = VMap [("a", num 1); ("id", num 7); ("version", num 3);
            ("restoredFrom", num 1)] /\
    DashboardVersion_Data row
    <> Json_Set (Json_Set (VMap [("a", num 1)]) "version" (num 3))
         "restoredFrom" (num 1).
Proof.
  split; [reflexivity|]. split; [reflexivity|].
  exists restored_version. split; [exact example_restore_rows|].
  split; [reflexivity|]. simpl. discriminate.
Qed.

(** A document for the dashboard of the example under the version number 2,
    which the dashboard has already. *)
Definition conflicting_dashboard : Dashboard :=
  {| Dashboard_Id := 7; Dashboard_Version := 2;
     Dashboard_Data := VMap [("a", num 1)];
     Dashboard_Updated := 100; Dashboard_UpdatedBy := 9 |}.

(** The update-and-append step on a database without the dashboard, and on
    the database of the example with a version number that is taken: the
    update of the dashboard row is made and rolled back. *)
Lemma update_and_append_atomic_witness :
  inTransaction (update_and_append example_restore example_dashboard 101)
    empty_db = (inr ErrDashboardNotFound, empty_db) /\
  exists msg,
    inTransaction (update_and_append example_restore conflicting_dashboard 101)
      example_db = (inr (ErrDriver msg), example_db) /\
    dashboard
      (update_and_append example_restore conflicting_dashboard 101
         example_db).2 !! 7 = Some conflicting_dashboard /\
    dashboard example_db !! 7 <> Some conflicting_dashboard.
Proof.
  split.
  - destruct (update_and_append_atomic example_restore example_dashboard 101
                empty_db) as (e & Hrun & Hnone & _); [by left|].
    by rewrite (Hnone eq_refl) in Hrun.
  - destruct (update_and_append_atomic example_restore conflicting_dashboard
                101 example_db) as (e & Hrun & _ & Hdriver).
    { right. by exists (version_row 2 1 2 "second"
                          (VMap [("a", num 2); ("b", num 3)])). }
    destruct (Hdriver live_dashboard example_live) as ([msg ->] & Hdash & _).
    exists msg. split; [exact Hrun|]. split.
    + rewrite Hdash. apply lookup_insert_eq.
    + rewrite example_live. discriminate.
Defined.

(** C2, as stated, fails where the update matches no row: the transaction
    fails with the dashboard-not-found error, which is no conflict. *)
Lemma update_and_append_conflict_counterexample :
  ~ (exists e,
       inTransaction (update_and_append example_restore example_dashboard 101)
         empty_db = (inr e, empty_db) /\
       failure_of e = Conflict).
Proof.
  intros (e & Hrun & Hkind). vm_compute in Hrun.
  injection Hrun as <-. discriminate Hkind.
Qed.

(** [Format] with a string as left value. *)
Lemma AsciiFormatter_Format_root_witness :
  AsciiFormatter_Format (mkDiff [])
    (NewAsciiFormatter (VString "x") AsciiFormatterDefaultConfig)
  = Return
      ("",
       Some (errorString
               "expected map[string]interface{} or []interface{}, got string"))
      (NewAsciiFormatter (VString "x") AsciiFormatterDefaultConfig).
Proof.
  apply (proj1 (AsciiFormatter_Format_root (mkDiff [])
                  (NewAsciiFormatter (VString "x")
                     AsciiFormatterDefaultConfig))).
  reflexivity.
Defined.

(** C3.  The left document is [{"a": 1}] and the diff holds an [Object]
    delta at ["a"], where the value is a number.  [processItem] returns the
    type-mismatch error, [processObject] drops it, and [Format] returns the
    two lines of the braces and no error. *)
Theorem AsciiFormatter_Format_drops_type_mismatch :
  processItem (num 1) [Object (Name "a") []] (Name "a") inside_root
  = Return (Some (errors_New "Type mismatch")) inside_root /\
  processObject [("a", num 1)] [Object (Name "a") []] inside_root
  = Return None inside_root /\
  exists f',
    AsciiFormatter_Format (mkDiff [Object (Name "a") []])
      (NewAsciiFormatter (VMap [("a", num 1)]) AsciiFormatterDefaultConfig)
    = Return (" {" +:+ newline +:+ " }" +:+ newline, None) f'.
Proof.
  split; [|split].
  - vm_compute. reflexivity.
  - vm_compute. reflexivity.
  - eexists. vm_compute. reflexivity.
Qed.






(** Two versions whose payloads hold the same members in different
    orders. *)
Lemma getDiff_same_witness :
  getDiff (version_row 1 0 1 "first" (VMap [("x", num 1); ("y", num 2)]))
    (version_row 1 0 1 "first" (VMap [("y", num 2); ("x", num 1)]))
  = Returns (VNil, nilDiff, None).
Proof.
  apply (proj1 (proj2 (getDiff_same
           (version_row 1 0 1 "first" (VMap [("x", num 1); ("y", num 2)]))))).
  assert (Hdata : same_document (VMap [("x", num 1); ("y", num 2)])
                    (VMap [("y", num 2); ("x", num 1)])).
  { apply same_map.
    - apply (bool_decide_unpack _). vm_compute. exact I.
    - apply (bool_decide_unpack _). vm_compute. exact I.
    - intros k. simpl.
      destruct (decide ("x" = k)) as [<-|Hx]; simpl; [repeat constructor|].
      destruct (decide ("y" = k)) as [<-|Hy]; simpl; repeat constructor. }
  apply same_map.
  - apply (bool_decide_unpack _). vm_compute. exact I.
  - apply (bool_decide_unpack _). vm_compute. exact I.
  - intros k. unfold DashboardVersion_json, version_row. simpl.
    do 8 (case_decide; simpl; [by repeat constructor|]).
    case_decide; simpl; constructor. exact Hdata.
Defined.

(** A renderer that writes its own name. *)
Definition named_renderer (name : string) (df : Diff)
  : call (string * option error) :=
  Returns (name, None).

Definition example_compare (diffType : Z) : CompareDashboardVersionsCommand :=
  {| Compare_DashboardId := 7; Compare_Original := 1; Compare_New := 2;
     Compare_DiffType := diffType; Compare_Delta := None |}.

(** A diff type that is not recognized, with both versions found and with
    none. *)
Lemma CompareDashboardVersions_dispatch_witness :
  CompareDashboardVersions (named_renderer "delta")
    (fun _ => named_renderer "json") (fun _ => named_renderer "basic")
    (example_compare 3) example_db
  = Returns (example_compare 3, Some ErrUnsupportedDiffType) /\
  CompareDashboardVersions (named_renderer "delta")
    (fun _ => named_renderer "json") (fun _ => named_renderer "basic")
    (example_compare 3) empty_db
  = Returns (example_compare 3, Some ErrDashboardVersionNotFound).
Proof.
  assert (Hun : ~ recognized (Compare_DiffType (example_compare 3))).
  { unfold recognized. vm_compute. intros [H|[H|H]]; discriminate H. }
  split.
  - exact (proj1 (CompareDashboardVersions_dispatch (named_renderer "delta")
                    (fun _ => named_renderer "json")
                    (fun _ => named_renderer "basic")
                    (example_compare 3) example_db) Hun).
  - exact (proj1 (CompareDashboardVersions_dispatch (named_renderer "delta")
                    (fun _ => named_renderer "json")
                    (fun _ => named_renderer "basic")
                    (example_compare 3) empty_db) Hun).
Defined.

(** C9, as stated, fails when a version is missing: with a diff type that
    is not recognized, the error returned is that of the lookup. *)
Lemma CompareDashboardVersions_unsupported_counterexample :
  ~ recognized 3 /\
  CompareDashboardVersions (named_renderer "delta")
    (fun _ => named_renderer "json") (fun _ => named_renderer "basic")
    (example_compare 3) empty_db
  = Returns (example_compare 3, Some ErrDashboardVersionNotFound) /\
  ErrDashboardVersionNotFound <> ErrUnsupportedDiffType.
Proof.
  split; [|split].
  - unfold recognized. vm_compute. intros [H|[H|H]]; discriminate H.
  - vm_compute. reflexivity.
  - discriminate.
Qed.

(** * Further properties *)

Section Further.
Context `{GoNumber}.

Notation "x <- m ;; k" := (bind m (fun x => k))
  (at level 100, m at next level, right associativity).
Notation "m ;; k" := (bind m (fun _ => k))
  (at level 100, right associativity).

(** ** Looking versions up *)

Lemma find_version_Some (db : DB) (dashboardId version : Z)
  (r : DashboardVersion) :
  find_version db dashboardId version = Some r ->
  r ∈ dashboard_version db /\
  DashboardVersion_DashboardId r = dashboardId /\
  DashboardVersion_Version r = version.
Proof.
  unfold find_version. intros Hf.
  destruct (list_find _ _) as [[i r']|] eqn:Hfind; [|discriminate Hf].
  injection Hf as <-. apply list_find_Some in Hfind as (Hi & [Hd Hv] & _).
  split; [by eapply list_elem_of_lookup_2|done].
Qed.

Lemma find_version_None (db : DB) (dashboardId version : Z) :
  find_version db dashboardId version = None <->
  forall r, r ∈ dashboard_version db ->
            ~ (DashboardVersion_DashboardId r = dashboardId /\
               DashboardVersion_Version r = version).
Proof.
  unfold find_version. rewrite fmap_None, list_find_None, Forall_forall.
  reflexivity.
Qed.

(** X1.  [GetDashboardVersion] fails with the version-not-found error, and
    leaves the query as it was, exactly when no row has the dashboard id and
    the version number asked for; otherwise it succeeds and its result is a
    stored row with that dashboard id and version number, the dashboard id
    written into the payload and every other column as stored. *)
Theorem GetDashboardVersion_lookup (query : GetDashboardVersionCommand)
  (db : DB) :
  let matching (r : DashboardVersion) :=
    r ∈ dashboard_version db /\
    DashboardVersion_DashboardId r = Get_DashboardId query /\
    DashboardVersion_Version r = Get_Version query in
  ((forall r, ~ matching r) <->
   GetDashboardVersion query db = (query, Some ErrDashboardVersionNotFound)) /\
  ((exists r, matching r) <->
   exists r,
     matching r /\
     GetDashboardVersion query db
     = ({| Get_DashboardId := Get_DashboardId query;
           Get_Version := Get_Version query;
           Get_Result := Some (with_id r) |}, None)).
Proof.
  intros matching. unfold GetDashboardVersion, getDashboardVersion.
  destruct (find_version db (Get_DashboardId query) (Get_Version query))
    as [r|] eqn:Hfind.
  - apply find_version_Some in Hfind as (Hin & Hd & Hv).
    assert (Hr : matching r) by done.
    split; split.
    + intros Hno. destruct (Hno r Hr).
    + discriminate.
    + intros _. exists r. done.
    + intros _. by exists r.
  - pose proof (proj1 (find_version_None _ _ _) Hfind) as Hnone.
    split; split.
    + done.
    + intros _ r (Hin & Hd & Hv). by apply (Hnone r Hin).
    + intros [r (Hin & Hd & Hv)]. destruct (Hnone r Hin). done.
    + intros [r [_ Heq]]. discriminate Heq.
Qed.

(** ** Restoring a version *)

(** The version row [RestoreDashboardVersion] inserts for a document, as the
    database stores it. *)
Definition restored_row (cmd : RestoreDashboardVersionCommand)
  (document : Dashboard) (now : Z) (db : DB) : DashboardVersion :=
  {| DashboardVersion_Id := next_id (dashboard_version db);
     DashboardVersion_DashboardId := Dashboard_Id document;
     DashboardVersion_ParentVersion := Restore_Version cmd;
     DashboardVersion_RestoredFrom := Restore_Version cmd;
     DashboardVersion_Version := Dashboard_Version document;
     DashboardVersion_Created := now;
     DashboardVersion_CreatedBy := Dashboard_UpdatedBy document;
     DashboardVersion_Message := "";
     DashboardVersion_Data := Dashboard_Data document |}.

(** The database after a restore that wrote [document] over the stored
    dashboard row [old]. *)
Definition restored_db (cmd : RestoreDashboardVersionCommand)
  (old document : Dashboard) (now : Z) (db : DB) : DB :=
  {| dashboard :=
       <[Dashboard_Id document := updated_row old document]> (dashboard db);
     dashboard_version :=
       dashboard_version db ++ [restored_row cmd document now db] |}.



Definition with_result (cmd : RestoreDashboardVersionCommand)
  (document : Dashboard) : RestoreDashboardVersionCommand :=
  {| Restore_DashboardId := Restore_DashboardId cmd;
     Restore_Version := Restore_Version cmd;
     Restore_UserId := Restore_UserId cmd;
     Restore_Result := Some document |}.

Lemma update_and_append_run (cmd : RestoreDashboardVersionCommand)
  (old d : Dashboard) (now : Z) (db : DB) :
  dashboard db !! Dashboard_Id d = Some old ->
  find_version db (Dashboard_Id d) (Dashboard_Version d) = None ->
  update_and_append cmd d now db = (inl d, restored_db cmd old d now db).
Proof.
  intros Hold Hfree. unfold update_and_append, sess_Update.
  rewrite Hold. simpl. unfold sess_Insert, find_version in *. simpl.
  rewrite Hfree. reflexivity.
Qed.

Lemma update_and_append_success (cmd : RestoreDashboardVersionCommand)
  (d d' : Dashboard) (now : Z) (db db' : DB) :
  update_and_append cmd d now db = (inl d', db') ->
  exists old,
    d' = d /\ db' = restored_db cmd old d now db /\
    dashboard db !! Dashboard_Id d = Some old /\
    find_version db (Dashboard_Id d) (Dashboard_Version d) = None.
Proof.
  intros Hrun.
  destruct (update_and_append_inv _ _ _ _ _ _ Hrun)
    as (-> & Hfree & (old & Hold & _) & _).
  rewrite (update_and_append_run cmd old d now db Hold Hfree) in Hrun.
  injection Hrun as <-. by exists old.
Qed.

(** A successful restore, in full: what was looked up, and the command and
    the database it leaves. *)
Lemma RestoreDashboardVersion_inv (cmd cmd' : RestoreDashboardVersionCommand)
  (now1 now2 : Z) (db db' : DB) :
  RestoreDashboardVersion cmd now1 now2 db = (cmd', None, db') ->
  exists target live old version,
    find_version db (Restore_DashboardId cmd) (Restore_Version cmd)
      = Some target /\
    dashboard db !! Restore_DashboardId cmd = Some live /\
    dashboard db !! Dashboard_Id live = Some old /\
    getMaxVersion db (Dashboard_Id live) = (version, None) /\
    find_version db (Dashboard_Id live) version = None /\
    let document :=
      restored_document cmd (with_id target) live version now1 in
    cmd' = with_result cmd document /\
    db' = restored_db cmd old document now2 db.
Proof.
  unfold RestoreDashboardVersion, inTransaction, restore_callback.
  destruct (restored_dashboard cmd now1 db) as [d|e] eqn:Hd; [|done].
  destruct (update_and_append cmd d now2 db) as [[d'|e] sess] eqn:Hw; [|done].
  intros [= <- <-].
  apply update_and_append_success in Hw as (old & -> & -> & Hold & Hfree).
  unfold restored_dashboard, getDashboardVersion, getDashboard in Hd.
  destruct (find_version db _ _) as [target|] eqn:Ht; [|done].
  destruct (dashboard db !! Restore_DashboardId cmd) as [live|] eqn:Hl;
    [|done].
  destruct (getMaxVersion db (Dashboard_Id live)) as [version [e|]] eqn:Hm;
    [done|].
  injection Hd as <-. exists target, live, old, version. done.
Qed.

(** The rows of the dashboard table sit under their own id. *)
Definition keyed (db : DB) : Prop :=
  forall k d, dashboard db !! k = Some d -> Dashboard_Id d = k.

(** The version numbers of a dashboard leave room for [room] more. *)
Definition versions_below (db : DB) (dashboardId room : Z) : Prop :=
  Forall (fun r => int_min <= DashboardVersion_Version r <= int_max - room)
    (versions_of db dashboardId).

Lemma getMaxVersion_run (db : DB) (dashboardId : Z) :
  versions_of db dashboardId <> [] ->
  versions_below db dashboardId 1 ->
  exists m,
    max_version db dashboardId m /\
    getMaxVersion db dashboardId = (m + 1, None).
Proof.
  intros Hne Hrange. apply getMaxVersion_found; [|exact Hne].
  eapply Forall_impl; [exact Hrange|]. simpl. intros r. lia.
Qed.

Lemma find_version_above (db : DB) (dashboardId m version : Z) :
  max_version db dashboardId m -> m < version ->
  find_version db dashboardId version = None.
Proof.
  intros [_ Hmax] Hlt. apply find_version_None. intros r Hr [Hd Hv].
  assert (Hle : DashboardVersion_Version r <= m).
  { apply Hmax, list_elem_of_fmap. exists r. split; [done|].
    apply list_elem_of_filter. done. }
  lia.
Qed.

Lemma RestoreDashboardVersion_run
  (cmd : RestoreDashboardVersionCommand) (now1 now2 : Z) (db : DB)
  (target : DashboardVersion) (live : Dashboard) :
  find_version db (Restore_DashboardId cmd) (Restore_Version cmd)
    = Some target ->
  dashboard db !! Restore_DashboardId cmd = Some live ->
  Dashboard_Id live = Restore_DashboardId cmd ->
  versions_below db (Restore_DashboardId cmd) 1 ->
  exists m,
    max_version db (Restore_DashboardId cmd) m /\
    let document := restored_document cmd (with_id target) live (m + 1) now1 in
    RestoreDashboardVersion cmd now1 now2 db
    = (with_result cmd document, None,
       restored_db cmd live document now2 db).
Proof.
  intros Ht Hl Hid Hrange.
  assert (Hne : versions_of db (Restore_DashboardId cmd) <> []).
  { apply find_version_Some in Ht as (Hin & Hd & _).
    intros Hnil.
    assert (Hin' : target ∈ versions_of db (Restore_DashboardId cmd))
      by (by apply list_elem_of_filter).
    rewrite Hnil in Hin'. inversion Hin'. }
  destruct (getMaxVersion_run db _ Hne Hrange) as (m & Hm & Hmax).
  exists m. split; [exact Hm|]. cbv zeta.
  unfold RestoreDashboardVersion, inTransaction, restore_callback,
    restored_dashboard, getDashboardVersion, getDashboard.
  rewrite Ht. cbv beta iota. rewrite Hl. cbv beta iota.
  rewrite Hid, Hmax. fold (with_id target).
  rewrite (update_and_append_run cmd live).
  - unfold restored_document. rewrite Hid. reflexivity.
  - exact Hl.
  - simpl. apply (find_version_above db _ m); [exact Hm|lia].
Qed.


(** X3.  A restore that fails leaves the command and the database as they
    were.  It fails with the version-not-found error when the target version
    is not stored, whether the dashboard is or not, and with the
    dashboard-not-found error when the target version is stored and the
    dashboard is not. *)
Theorem RestoreDashboardVersion_fails
  (cmd : RestoreDashboardVersionCommand) (now1 now2 : Z) (db : DB) :
  (forall cmd' err db',
     RestoreDashboardVersion cmd now1 now2 db = (cmd', Some err, db') ->
     cmd' = cmd /\ db' = db) /\
  (find_version db (Restore_DashboardId cmd) (Restore_Version cmd) = None ->
   RestoreDashboardVersion cmd now1 now2 db
   = (cmd, Some ErrDashboardVersionNotFound, db)) /\
  (is_Some (find_version db (Restore_DashboardId cmd) (Restore_Version cmd)) ->
   dashboard db !! Restore_DashboardId cmd = None ->
   RestoreDashboardVersion cmd now1 now2 db
   = (cmd, Some ErrDashboardNotFound, db)).
Proof.
  unfold RestoreDashboardVersion, inTransaction, restore_callback.
  split; [|split].
  - intros cmd' err db'.
    destruct (restored_dashboard cmd now1 db) as [d|e]; [|by intros [= <- _ <-]].
    destruct (update_and_append cmd d now2 db) as [[d'|e] sess];
      [done|by intros [= <- _ <-]].
  - intros Hnone. unfold restored_dashboard, getDashboardVersion.
    by rewrite Hnone.
  - intros [target Ht] Hl.
    unfold restored_dashboard, getDashboardVersion, getDashboard.
    by rewrite Ht, Hl.
Qed.

Lemma find_version_restored_old (cmd : RestoreDashboardVersionCommand)
  (old document : Dashboard) (now : Z) (db : DB) (dashboardId version : Z)
  (r : DashboardVersion) :
  find_version db dashboardId version = Some r ->
  find_version (restored_db cmd old document now db) dashboardId version
  = Some r.
Proof.
  unfold find_version. simpl. intros Hf.
  destruct (list_find _ (dashboard_version db)) as [[i r']|] eqn:Hfind;
    [|discriminate Hf].
  injection Hf as ->.
  by rewrite (list_find_app_l _ _ _ _ _ Hfind).
Qed.


(** A pair of dashboard id and version number is stored at most once, and
    so is a primary key. *)
Definition unique_versions (db : DB) : Prop :=
  NoDup ((fun r => (DashboardVersion_DashboardId r, DashboardVersion_Version r))
           <$> dashboard_version db).

Definition unique_ids (db : DB) : Prop :=
  NoDup (DashboardVersion_Id <$> dashboard_version db).

Lemma next_id_fresh (rows : list DashboardVersion) :
  next_id rows ∉ DashboardVersion_Id <$> rows.
Proof.
  unfold next_id. intros Hin.
  pose proof (foldr_max_upper 0 (DashboardVersion_Id <$> rows) _ Hin). lia.
Qed.

(** X4.  A successful restore keeps the database well formed and touches
    nothing else: the stored version rows stay where they were, unchanged,
    a pair of dashboard id and version number and a primary key are still
    stored at most once, the dashboards still sit under their ids, and every
    other dashboard is as it was. *)
Theorem RestoreDashboardVersion_preserves
  (cmd cmd' : RestoreDashboardVersionCommand) (now1 now2 : Z) (db db' : DB) :
  RestoreDashboardVersion cmd now1 now2 db = (cmd', None, db') ->
  (forall i r, dashboard_version db !! i = Some r ->
               dashboard_version db' !! i = Some r) /\
  (unique_versions db -> unique_versions db') /\
  (unique_ids db -> unique_ids db') /\
  (keyed db -> keyed db') /\
  (keyed db ->
   forall k, k <> Restore_DashboardId cmd ->
             dashboard db' !! k = dashboard db !! k).
Proof.
  intros Hrun.
  destruct (RestoreDashboardVersion_inv _ _ _ _ _ _ Hrun)
    as (target & live & old & version & Ht & Hl & Hold & Hm & Hfree & Hcmd
        & ->).
  clear Hrun Hcmd. simpl. split; [|split; [|split; [|split]]].
  - intros i r Hi. by apply lookup_app_l_Some.
  - unfold unique_versions. simpl. rewrite fmap_app. intros Hu.
    apply NoDup_app. split; [exact Hu|]. split; [|apply NoDup_singleton].
    intros [d v] Hin Hnew. apply list_elem_of_singleton in Hnew.
    injection Hnew as -> ->.
    apply list_elem_of_fmap in Hin as (r & Heq & Hr). injection Heq as Hd Hv.
    apply (proj1 (find_version_None _ _ _) Hfree r Hr). done.
  - unfold unique_ids. simpl. rewrite fmap_app. intros Hu.
    apply NoDup_app. split; [exact Hu|]. split; [|apply NoDup_singleton].
    intros k Hin Hnew. apply list_elem_of_singleton in Hnew. subst k.
    by apply next_id_fresh in Hin.
  - unfold keyed. simpl. intros Hk k d. rewrite lookup_insert.
    case_decide as Hkey; [|apply Hk]. intros [= <-]. simpl.
    rewrite <- Hkey. by apply Hk.
  - intros Hk k Hne. apply lookup_insert_ne.
    rewrite (Hk _ _ Hl). congruence.
Qed.


Lemma max_version_unique (db : DB) (dashboardId m m' : Z) :
  max_version db dashboardId m -> max_version db dashboardId m' -> m = m'.
Proof.
  intros [Hin Hmax] [Hin' Hmax'].
  pose proof (Hmax _ Hin'). pose proof (Hmax' _ Hin). lia.
Qed.

Lemma versions_of_restored (cmd : RestoreDashboardVersionCommand)
  (old document : Dashboard) (now : Z) (db : DB) :
  versions_of (restored_db cmd old document now db) (Dashboard_Id document)
  = versions_of db (Dashboard_Id document)
    ++ [restored_row cmd document now db].
Proof.
  unfold versions_of. simpl. rewrite filter_app. f_equal.
  rewrite filter_cons. simpl. by rewrite decide_True.
Qed.

(** X6.  Restoring to the same version twice in a row succeeds twice: the
    two version rows appended carry the two version numbers following the
    highest, both record the target version as parent and as restored-from,
    and both payloads are the payload of the target version under their own
    version number. *)
Theorem RestoreDashboardVersion_twice
  (cmd : RestoreDashboardVersionCommand) (now1 now2 now3 now4 : Z) (db : DB)
  (target : DashboardVersion) (live : Dashboard) :
  find_version db (Restore_DashboardId cmd) (Restore_Version cmd)
    = Some target ->
  dashboard db !! Restore_DashboardId cmd = Some live ->
  Dashboard_Id live = Restore_DashboardId cmd ->
  versions_below db (Restore_DashboardId cmd) 2 ->
  exists m db1 db2,
    max_version db (Restore_DashboardId cmd) m /\
    let first := restored_document cmd (with_id target) live (m + 1) now1 in
    let second := restored_document cmd (with_id target) live (m + 2) now3 in
    RestoreDashboardVersion cmd now1 now2 db = (with_result cmd first, None, db1)
    /\
    RestoreDashboardVersion cmd now3 now4 db1
    = (with_result cmd second, None, db2) /\
    dashboard_version db1
    = dashboard_version db ++ [restored_row cmd first now2 db] /\
    dashboard_version db2
    = dashboard_version db
      ++ [restored_row cmd first now2 db; restored_row cmd second now4 db1].
Proof.
  intros Ht Hl Hid Hrange.
  assert (Hrange1 : versions_below db (Restore_DashboardId cmd) 1).
  { eapply Forall_impl; [exact Hrange|]. simpl. intros r. lia. }
  destruct (RestoreDashboardVersion_run cmd now1 now2 db target live
              Ht Hl Hid Hrange1) as (m & Hm & Hfirst).
  cbv zeta in *.
  set (first := restored_document cmd (with_id target) live (m + 1) now1) in *.
  set (db1 := restored_db cmd live first now2 db) in *.
  exists m, db1.
  assert (Hfid : Dashboard_Id first = Restore_DashboardId cmd) by exact Hid.
  assert (Hvs : versions_of db1 (Restore_DashboardId cmd)
                = versions_of db (Restore_DashboardId cmd)
                  ++ [restored_row cmd first now2 db]).
  { rewrite <- Hfid. apply versions_of_restored. }
  assert (Hm1 : max_version db1 (Restore_DashboardId cmd) (m + 1)).
  { destruct Hm as [Hin Hmax]. unfold max_version. rewrite Hvs, fmap_app.
    split.
    - apply elem_of_app. right. apply list_elem_of_singleton. reflexivity.
    - intros v Hv. apply elem_of_app in Hv as [Hv|Hv].
      + specialize (Hmax v Hv). lia.
      + apply list_elem_of_singleton in Hv. subst v. simpl. lia. }
  assert (Hrange' : versions_below db1 (Restore_DashboardId cmd) 1).
  { unfold versions_below. rewrite Hvs. apply Forall_app. split.
    - eapply Forall_impl; [exact Hrange|]. simpl. intros r. lia.
    - constructor; [|constructor]. simpl.
      destruct Hm as [Hin _].
      apply list_elem_of_fmap in Hin as (r & -> & Hr).
      unfold versions_below in Hrange. rewrite Forall_forall in Hrange.
      specialize (Hrange r Hr). simpl in Hrange. lia. }
  destruct (RestoreDashboardVersion_run cmd now3 now4 db1 target
              (updated_row live first))
    as (m' & Hm' & Hsecond).
  - by apply find_version_restored_old.
  - simpl. rewrite <- Hfid. apply lookup_insert_eq.
  - exact Hid.
  - exact Hrange'.
  - rewrite <- (max_version_unique _ _ _ _ Hm1 Hm') in Hsecond.
    replace (m + 1 + 1) with (m + 2) in Hsecond by lia.
    eexists. split; [exact Hm|]. split; [exact Hfirst|].
    split; [exact Hsecond|]. split; [reflexivity|].
    simpl. by rewrite <- app_assoc.
Qed.

(** ** Comparing two versions *)

(** [getDiff] returns no error, and either the no-changes result, with a
    [nil] left document and a [nil] diff, or the document of the original
    version together with a diff that holds at least one delta. *)
Lemma getDiff_result (originalDash newDash : DashboardVersion) :
  getDiff originalDash newDash = Returns (VNil, nilDiff, None) \/
  exists deltas,
    deltas <> [] /\
    getDiff originalDash newDash
    = Returns (DashboardVersion_json originalDash, mkDiff deltas, None).
Proof.
  unfold getDiff.
  pose proof (Compare_not_nil (DashboardVersion_json originalDash)
                (DashboardVersion_json newDash)) as Hnil.
  destruct (Compare _ _) as [|deltas]; [done|]. simpl.
  destruct (decide (deltas <> [])) as [Hne|Heq].
  - right. exists deltas. by rewrite bool_decide_eq_true_2.
  - left. by rewrite bool_decide_eq_false_2.
Qed.

(** X7.  [CompareDashboardVersionsCommand] changes the command only when it
    succeeds, and then only its [Delta]: when it returns an error, from a
    lookup, from the renderer or for the diff type, the command is as it
    was; when it returns none, both versions were found, the diff type is a
    recognized one, the renderer of that type, run on the diff of the two
    versions, returned an output and no error, and the command is as it was
    but for [Delta], which holds that output. *)
Theorem CompareDashboardVersions_result
  (DeltaFormatter_Format : Diff -> call (string * option error))
  (JSONFormatter_Format BasicFormatter_Format
     : value -> Diff -> call (string * option error))
  (cmd cmd' : CompareDashboardVersionsCommand) (db : DB)
  (err : option error) :
  CompareDashboardVersions DeltaFormatter_Format JSONFormatter_Format
    BasicFormatter_Format cmd db = Returns (cmd', err) ->
  match err with
  | Some _ => cmd' = cmd
  | None =>
      exists original newDashboard left_ jsonDiff out,
        getDashboardVersion db (Compare_DashboardId cmd)
          (Compare_Original cmd) = inl original /\
        getDashboardVersion db (Compare_DashboardId cmd) (Compare_New cmd)
        = inl newDashboard /\
        getDiff original newDashboard = Returns (left_, jsonDiff, None) /\
        (Compare_DiffType cmd = DiffDelta /\
         DeltaFormatter_Format jsonDiff = Returns (out, None) \/
         Compare_DiffType cmd = DiffJSON /\
         JSONFormatter_Format left_ jsonDiff = Returns (out, None) \/
         Compare_DiffType cmd = DiffBasic /\
         BasicFormatter_Format left_ jsonDiff = Returns (out, None)) /\
        cmd' = set_Delta out cmd
  end.
Proof.
  unfold CompareDashboardVersions.
  destruct (getDashboardVersion db _ (Compare_Original cmd)) as [o|e];
    [|by intros [= <- <-]].
  destruct (getDashboardVersion db _ (Compare_New cmd)) as [n|e];
    [|by intros [= <- <-]].
  destruct (getDiff_returns o n) as (l & df & Hdiff). rewrite Hdiff.
  assert (Hrender : forall output,
    render cmd output = Returns (cmd', err) ->
    match err with
    | Some _ => cmd' = cmd
    | None => exists out, output = Returns (out, None) /\
                          cmd' = set_Delta out cmd
    end).
  { intros [[out [e|]]|p]; simpl; [| |done].
    - by intros [= <- <-].
    - intros [= <- <-]. by exists out. }
  repeat case_decide.
  - intros Hr. apply Hrender in Hr. destruct err; [done|].
    destruct Hr as (out & Hout & ->). exists o, n, l, df, out. auto 10.
  - intros Hr. apply Hrender in Hr. destruct err; [done|].
    destruct Hr as (out & Hout & ->). exists o, n, l, df, out. auto 10.
  - intros Hr. apply Hrender in Hr. destruct err; [done|].
    destruct Hr as (out & Hout & ->). exists o, n, l, df, out. auto 10.
  - by intros [= <- <-].
Qed.

(** X8.  When the diff of the two versions holds no delta, the comparison
    still reaches the switch on the diff type, with the no-changes result of
    [getDiff]: with a recognized diff type the renderer is run on a [nil]
    diff (and a [nil] left document), and with any other the
    unsupported-diff-type error is returned. *)
Theorem CompareDashboardVersions_no_changes
  (DeltaFormatter_Format : Diff -> call (string * option error))
  (JSONFormatter_Format BasicFormatter_Format
     : value -> Diff -> call (string * option error))
  (cmd : CompareDashboardVersionsCommand) (db : DB)
  (original newDashboard : DashboardVersion) :
  getDashboardVersion db (Compare_DashboardId cmd) (Compare_Original cmd)
    = inl original ->
  getDashboardVersion db (Compare_DashboardId cmd) (Compare_New cmd)
    = inl newDashboard ->
  Compare (DashboardVersion_json original) (DashboardVersion_json newDashboard)
    = mkDiff [] ->
  let run :=
    CompareDashboardVersions DeltaFormatter_Format JSONFormatter_Format
      BasicFormatter_Format cmd db in
  (Compare_DiffType cmd = DiffDelta ->
   run = render cmd (DeltaFormatter_Format nilDiff)) /\
  (Compare_DiffType cmd = DiffJSON ->
   run = render cmd (JSONFormatter_Format VNil nilDiff)) /\
  (Compare_DiffType cmd = DiffBasic ->
   run = render cmd (BasicFormatter_Format VNil nilDiff)) /\
  (~ recognized (Compare_DiffType cmd) ->
   run = Returns (cmd, Some ErrUnsupportedDiffType)).
Proof.
  intros Ho Hn Hempty run. subst run.
  unfold CompareDashboardVersions, recognized.
  rewrite Ho, Hn. unfold getDiff. rewrite Hempty. simpl.
  unfold DiffDelta, DiffJSON, DiffBasic.
  repeat split.
  - by intros ->.
  - by intros ->.
  - by intros ->.
  - intros Hun. repeat case_decide; tauto.
Qed.

(** ** The lines of a value *)

(** The counter of a level once one more value has been closed. *)
Definition after_value (n : Z) : Z := int_wrap (n - 1).

(** The lines of values printed in turn at one level, whose counter stands
    at [n]: each value takes one from the counter and is told what remains. *)
Fixpoint lines_in_turn {A} (render : A -> Z -> list (nat * string))
  (l : list A) (n : Z) : list (nat * string) :=
  match l with
  | [] => []
  | x :: l' =>
      render x (after_value n) ++ lines_in_turn render l' (after_value n)
  end.

(** The lines [printRecursive] writes for a value, each with its level and
    its content: one line for a scalar; for a map or a slice the opening
    bracket under the label of the value, the members one level deeper (those
    of a map by ascending key, under their keys) and the closing bracket.  A
    comma ends the last line of a value when siblings remain after it.  The
    members of a map are paired with their lines before the sorted keys are
    walked, as in [printRecursive]. *)
Fixpoint value_lines (cfg : AsciiFormatterConfig) (array : bool)
  (level : nat) (name : string) (v : value) (remaining : Z) {struct v}
  : list (nat * string) :=
  match v with
  | VMap m =>
      (level, key_label cfg array name +:+ "{") ::
      (let rendered :=
         (fix each (l : list (string * value))
            : list (string * (Z -> list (nat * string))) :=
            match l with
            | [] => []
            | (k, x) :: l' =>
                (k, value_lines cfg false (S level) k x) :: each l'
            end) m in
       lines_in_turn
         (fun key =>
            match list_find (fun p => p.1 = key) rendered with
            | Some (_, (_, lines)) => lines
            | None =>
                fun rest =>
                  [(S level,
                    key_label cfg false key +:+ "null" +:+ comma rest)]
            end)
         (sortedKeys m) (len m)) ++
      [(level, "}" +:+ comma remaining)]
  | VSlice s =>
      (level, key_label cfg array name +:+ "[") ::
      (fix each (l : list value) (n : Z) : list (nat * string) :=
         match l with
         | [] => []
         | x :: l' =>
             value_lines cfg true (S level) "" x (after_value n) ++
             each l' (after_value n)
         end) s (len s) ++
      [(level, "]" +:+ comma remaining)]
  | _ =>
      [(level, key_label cfg array name +:+ scalar_text v +:+ comma remaining)]
  end.

Lemma lines_in_turn_ext {A} (render render' : A -> Z -> list (nat * string))
  (l : list A) (n : Z) :
  (forall x, render x = render' x) ->
  lines_in_turn render l n = lines_in_turn render' l n.
Proof.
  intros Hr. revert n. induction l as [|x l IH]; intros n; [reflexivity|].
  simpl. by rewrite Hr, IH.
Qed.

Lemma value_lines_map cfg array level name (m : list (string * value))
  remaining :
  value_lines cfg array level name (VMap m) remaining
  = (level, key_label cfg array name +:+ "{") ::
    lines_in_turn
      (fun key => value_lines cfg false (S level) key (map_index m key))
      (sortedKeys m) (len m) ++
    [(level, "}" +:+ comma remaining)].
Proof.
  simpl. do 2 f_equal. apply lines_in_turn_ext. intros key.
  unfold map_index. induction m as [|[k x] m IH]; [reflexivity|].
  simpl. destruct (decide (k = key)) as [->|Hne]; [reflexivity|].
  rewrite <- IH.
  match goal with
  | |- context [list_find ?P ?l] => by destruct (list_find P l) as [[? [? ?]]|]
  end.
Qed.

Lemma value_lines_slice cfg array level name (s : list value) remaining :
  value_lines cfg array level name (VSlice s) remaining
  = (level, key_label cfg array name +:+ "[") ::
    lines_in_turn (value_lines cfg true (S level) "") s (len s) ++
    [(level, "]" +:+ comma remaining)].
Proof.
  simpl. do 2 f_equal. generalize (len s).
  induction s as [|x s IH]; intros n; [reflexivity|].
  simpl. by rewrite IH.
Qed.

(** The text of lines that all carry one marker. *)
Fixpoint lines_text (cfg : AsciiFormatterConfig) (marker_ : string)
  (lines : list (nat * string)) : string :=
  match lines with
  | [] => ""
  | (level, content) :: lines' =>
      rendered_line cfg marker_ level content +:+
      lines_text cfg marker_ lines'
  end.

Lemma lines_text_app cfg marker_ (l1 l2 : list (nat * string)) :
  lines_text cfg marker_ (l1 ++ l2)
  = lines_text cfg marker_ l1 +:+ lines_text cfg marker_ l2.
Proof.
  induction l1 as [|[level content] l1 IH]; [reflexivity|].
  simpl. by rewrite IH, string_app_assoc.
Qed.

(** [f'] is [f] with [out] appended to the output and [sz] as counters. *)
Definition printed (f f' : AsciiFormatter) (out : string) (sz : list Z)
  : Prop :=
  buffer f' = buffer f +:+ out /\ size f' = sz /\ path f' = path f /\
  inArray f' = inArray f /\ config f' = config f /\ left f' = left f.

Lemma pop_run (f : AsciiFormatter) (p : list string) (name : string)
  (s : list Z) (n : Z) (a : list bool) (b : bool) :
  path f = p ++ [name] -> size f = s ++ [n] -> inArray f = a ++ [b] ->
  pop f = Return tt (set_stacks p s a f).
Proof.
  intros Hp Hs Ha. unfold pop. rewrite Hp, Hs, Ha.
  destruct (p ++ [name]) eqn:Ep; [by destruct p|].
  destruct (s ++ [n]) eqn:Es; [by destruct s|].
  destruct (a ++ [b]) eqn:Ea; [by destruct a|].
  rewrite <- Ep, <- Es, <- Ea, !drop_last_snoc. reflexivity.
Qed.

(** The opening of a container, followed by the rest of the method. *)
Lemma open_run (name pushed bracket marker_ : string) (k : Z) (c : bool)
  (f : AsciiFormatter) (a : list bool) (b : bool) :
  inArray f = a ++ [b] ->
  exists f1,
    (forall B (rest : Fmt B),
       (newLine marker_ ;; printKey name ;; print bracket ;; closeLine ;;
        push pushed k c ;; rest) f = rest f1) /\
    buffer f1
    = buffer f +:+
      rendered_line (config f) marker_ (length (path f))
        (key_label (config f) b name +:+ bracket) /\
    path f1 = path f ++ [pushed] /\ size f1 = size f ++ [k] /\
    inArray f1 = inArray f ++ [c] /\ config f1 = config f /\
    left f1 = left f.
Proof.
  intros Ha. eexists. split.
  - intros B rest.
    erewrite bind_Return by reflexivity.
    erewrite bind_Return by (eapply printKey_run; [exact Ha|reflexivity]).
    erewrite bind_Return by (by eapply line_write_run).
    erewrite bind_Return by (by eapply closeLine_run).
    erewrite bind_Return by reflexivity.
    reflexivity.
  - simpl. by rewrite !string_app_assoc.
Qed.

(** The closing of a container. *)
Lemma close_run (bracket marker_ : string) (f : AsciiFormatter)
  (p : list string) (name : string) (s : list Z) (n k : Z) (a : list bool)
  (b c : bool) :
  path f = p ++ [name] -> size f = (s ++ [n]) ++ [k] ->
  inArray f = (a ++ [b]) ++ [c] ->
  exists f',
    (pop ;; newLine marker_ ;; print bracket ;; printComma ;; closeLine) f
    = Return tt f' /\
    buffer f'
    = buffer f +:+
      rendered_line (config f) marker_ (length p)
        (bracket +:+ comma (after_value n)) /\
    path f' = p /\ size f' = s ++ [after_value n] /\
    inArray f' = a ++ [b] /\ config f' = config f /\ left f' = left f.
Proof.
  intros Hp Hs Ha. eexists.
  erewrite bind_Return by (by eapply pop_run).
  erewrite bind_Return by reflexivity.
  erewrite bind_Return by (by eapply line_write_run).
  erewrite bind_Return by (by eapply printComma_run).
  erewrite closeLine_run by reflexivity.
  split; [reflexivity|]. simpl. by rewrite !string_app_assoc.
Qed.

(** A loop over values printed in turn. *)
Lemma for_each_lines {A} (body : A -> Fmt unit)
  (render : A -> Z -> list (nat * string)) (marker_ : string)
  (cfg : AsciiFormatterConfig) (p : list string) (s : list Z)
  (a : list bool) (l : list A) :
  (forall x f k,
     x ∈ l -> config f = cfg -> path f = p -> size f = s ++ [k] ->
     inArray f = a ->
     exists f',
       body x f = Return tt f' /\
       printed f f' (lines_text cfg marker_ (render x (after_value k)))
         (s ++ [after_value k])) ->
  forall f k,
    config f = cfg -> path f = p -> size f = s ++ [k] -> inArray f = a ->
    exists f' k',
      for_each l body f = Return tt f' /\
      printed f f' (lines_text cfg marker_ (lines_in_turn render l k))
        (s ++ [k']).
Proof.
  induction l as [|x l IH]; intros Hbody f k Hc Hp Hs Ha.
  - exists f, k. split; [reflexivity|]. unfold printed. simpl.
    by rewrite string_app_nil_r.
  - destruct (Hbody x f k (list_elem_of_here _ _) Hc Hp Hs Ha)
      as (f1 & Hrun & Hb1 & Hs1 & Hp1 & Ha1 & Hc1 & Hl1).
    destruct (IH (fun y g j Hy => Hbody y g j (list_elem_of_further _ _ _ Hy))
                f1 (after_value k))
      as (f2 & k' & Hrun2 & Hb2 & Hs2 & Hp2 & Ha2 & Hc2 & Hl2);
      [congruence..|].
    exists f2, k'. split.
    + simpl. by erewrite bind_Return by exact Hrun.
    + unfold printed. simpl.
      rewrite lines_text_app, Hb2, Hb1, string_app_assoc.
      repeat split; congruence.
Qed.

Lemma sortedKeys_len (m : list (string * value)) :
  len (sortedKeys m) = len m.
Proof.
  unfold len. rewrite (Permutation_length (sortedKeys_Permutation m)).
  by rewrite length_fmap.
Qed.

(** What [printRecursive] does with a container whose members are printed
    by [body], given what the loop over the members does. *)
Lemma container_lines {A} (name pushed opening closing marker_ : string)
  (c : bool) (members : list A) (body : A -> Fmt unit)
  (render : A -> Z -> list (nat * string)) (f : AsciiFormatter)
  (s : list Z) (n : Z) (a : list bool) (b : bool) :
  size f = s ++ [n] -> inArray f = a ++ [b] ->
  (forall x g k,
     x ∈ members -> config g = config f -> path g = path f ++ [pushed] ->
     size g = (s ++ [n]) ++ [k] -> inArray g = (a ++ [b]) ++ [c] ->
     exists g',
       body x g = Return tt g' /\
       printed g g'
         (lines_text (config f) marker_ (render x (after_value k)))
         ((s ++ [n]) ++ [after_value k])) ->
  exists f',
    (newLine marker_ ;; printKey name ;; print opening ;; closeLine ;;
     push pushed (len members) c ;;
     for_each members body ;;
     pop ;; newLine marker_ ;; print closing ;; printComma ;; closeLine) f
    = Return tt f' /\
    printed f f'
      (lines_text (config f) marker_
         ((length (path f), key_label (config f) b name +:+ opening) ::
          lines_in_turn render members (len members) ++
          [(length (path f), closing +:+ comma (after_value n))]))
      (s ++ [after_value n]).
Proof.
  intros Hs Ha Hbody.
  destruct (open_run name pushed opening marker_ (len members) c f a b Ha)
    as (f1 & Hopen & Hb1 & Hp1 & Hs1 & Ha1 & Hc1 & Hl1).
  destruct (for_each_lines body render marker_ (config f)
              (path f ++ [pushed]) (s ++ [n]) ((a ++ [b]) ++ [c]) members)
    with (f := f1) (k := len members)
    as (f2 & k' & Hloop & Hb2 & Hs2 & Hp2 & Ha2 & Hc2 & Hl2);
    [|congruence..|].
  { intros x g k Hx Hgc Hgp Hgs Hga. by apply Hbody. }
  destruct (close_run closing marker_ f2 (path f) pushed s n k' a b c)
    as (f3 & Hclose & Hb3 & Hp3 & Hs3 & Ha3 & Hc3 & Hl3); [congruence..|].
  exists f3. split.
  - rewrite Hopen. erewrite bind_Return by exact Hloop. exact Hclose.
  - unfold printed. simpl.
    rewrite lines_text_app. simpl.
    rewrite Hb3, Hb2, Hb1, Hc2, Hc1, !string_app_assoc, string_app_nil_r.
    repeat split; congruence.
Qed.

(** [printRecursive] writes the lines of the value, all under the marker it
    is given, and closes the value. *)
Lemma printRecursive_lines (v : value) :
  forall name marker_ f s n a b,
    size f = s ++ [n] -> inArray f = a ++ [b] ->
    exists f',
      printRecursive name v marker_ f = Return tt f' /\
      printed f f'
        (lines_text (config f) marker_
           (value_lines (config f) b (length (path f)) name v (after_value n)))
        (s ++ [after_value n]).
Proof.
  induction v as [| x | x | x | items IH | members IH] using value_ind';
    intros name marker_ f s n a b Hs Ha.
  1-4: eexists; split; [by eapply printLeaf_run|];
    unfold printed; simpl; by rewrite string_app_nil_r.
  - rewrite printRecursive_slice, value_lines_slice.
    apply (container_lines name "" "[" "]" marker_ true items
             (fun item => printRecursive "" item marker_)
             (value_lines (config f) true (S (length (path f))) "")
             f s n a b Hs Ha).
    intros x g k Hx Hgc Hgp Hgs Hga.
    rewrite Forall_forall in IH.
    destruct (IH x Hx "" marker_ g (s ++ [n]) k (a ++ [b]) true Hgs Hga)
      as (g' & Hrun & Hpr).
    exists g'. split; [exact Hrun|].
    rewrite Hgc, Hgp, length_app in Hpr. simpl in Hpr.
    replace (length (path f) + 1)%nat with (S (length (path f))) in Hpr
      by lia.
    exact Hpr.
  - rewrite printRecursive_map, value_lines_map, <- (sortedKeys_len members).
    apply (container_lines name name "{" "}" marker_ false (sortedKeys members)
             (fun key => printRecursive key (map_index members key) marker_)
             (fun key =>
                value_lines (config f) false (S (length (path f))) key
                  (map_index members key))
             f s n a b Hs Ha).
    intros key g k _ Hgc Hgp Hgs Hga.
    assert (Hmember : forall name marker_ f s n a b,
      size f = s ++ [n] -> inArray f = a ++ [b] ->
      exists f',
        printRecursive name (map_index members key) marker_ f = Return tt f' /\
        printed f f'
          (lines_text (config f) marker_
             (value_lines (config f) b (length (path f)) name
                (map_index members key) (after_value n)))
          (s ++ [after_value n])).
    { unfold map_index.
      destruct (map_get members key) as [x|] eqn:Hget; simpl.
      - apply map_get_elem in Hget. rewrite Forall_forall in IH.
        apply (IH _ Hget).
      - intros. eexists. split; [by eapply printLeaf_run|].
        unfold printed. simpl. by rewrite string_app_nil_r. }
    destruct (Hmember key marker_ g (s ++ [n]) k (a ++ [b]) false Hgs Hga)
      as (g' & Hrun & Hpr).
    exists g'. split; [exact Hrun|].
    rewrite Hgc, Hgp, length_app in Hpr. simpl in Hpr.
    replace (length (path f) + 1)%nat with (S (length (path f))) in Hpr
      by lia.
    exact Hpr.
Qed.

(** X9.  From a formatter inside a container, [printRecursive] never
    panics: it appends the lines of the value, every one of them under the
    marker it was given, the brackets of maps and slices included, indented
    by their depth, the members of a map by ascending key, with a comma
    after a value exactly when siblings remain; it takes one from the
    counter of the level and leaves the rest of the formatter as it was. *)
Theorem printRecursive_renders (name : string) (v : value)
  (marker_ : string) (f : AsciiFormatter) (s : list Z) (n : Z)
  (a : list bool) (b : bool) :
  size f = s ++ [n] -> inArray f = a ++ [b] ->
  exists f',
    printRecursive name v marker_ f = Return tt f' /\
    buffer f'
    = buffer f +:+
      lines_text (config f) marker_
        (value_lines (config f) b (length (path f)) name v (after_value n)) /\
    size f' = s ++ [after_value n] /\
    path f' = path f /\ inArray f' = inArray f /\
    config f' = config f /\ left f' = left f.
Proof.
  intros Hs Ha.
  destruct (printRecursive_lines v name marker_ f s n a b Hs Ha)
    as (f' & Hrun & Hpr).
  exists f'. split; [exact Hrun | exact Hpr].
Qed.

(** ** Items and their deltas *)

Lemma int_wrap_back (n : Z) : int_wrap (int_wrap (n - 1) + 1) = int_wrap n.
Proof.
  unfold int_wrap.
  replace ((n - 1 + 2 ^ 63) `mod` 2 ^ 64 - 2 ^ 63 + 1 + 2 ^ 63)
    with ((n - 1 + 2 ^ 63) `mod` 2 ^ 64 + 1) by lia.
  rewrite Zplus_mod_idemp_l. f_equal. f_equal. lia.
Qed.

Lemma printed_nothing (f : AsciiFormatter) : printed f f "" (size f).
Proof. unfold printed. by rewrite string_app_nil_r. Qed.

Lemma processItem_no_delta (v : value) (deltas : list Delta)
  (position : Position) (f : AsciiFormatter) (s : list Z) (n : Z)
  (a : list bool) (b : bool) :
  searchDeltas deltas position = [] ->
  size f = s ++ [n] -> inArray f = a ++ [b] ->
  exists f',
    processItem v deltas position f = Return None f' /\
    printed f f'
      (lines_text (config f) AsciiSame
         (value_lines (config f) b (length (path f))
            (Position_String position) v (after_value n)))
      (s ++ [after_value n]).
Proof.
  intros Hsearch Hs Ha. rewrite processItem_eq, Hsearch. cbv zeta.
  change (0 <? len []) with false. cbv iota.
  destruct (printRecursive_lines v (Position_String position) AsciiSame
              f s n a b Hs Ha) as (f' & Hrun & Hpr).
  exists f'. split; [|exact Hpr].
  by erewrite bind_Return by exact Hrun.
Qed.

(** X10.  An item without a delta at its position is printed whole as
    unchanged: [processItem] writes the lines of the value under the marker
    of unchanged lines, takes one from the counter of the level and returns
    no error. *)
Theorem processItem_unchanged (v : value) (deltas : list Delta)
  (position : Position) (f : AsciiFormatter) (s : list Z) (n : Z)
  (a : list bool) (b : bool) :
  searchDeltas deltas position = [] ->
  size f = s ++ [n] -> inArray f = a ++ [b] ->
  exists f',
    processItem v deltas position f = Return None f' /\
    buffer f'
    = buffer f +:+
      lines_text (config f) AsciiSame
        (value_lines (config f) b (length (path f))
           (Position_String position) v (after_value n)) /\
    size f' = s ++ [after_value n] /\
    path f' = path f /\ inArray f' = inArray f /\
    config f' = config f /\ left f' = left f.
Proof.
  intros Hsearch Hs Ha.
  exact (processItem_no_delta v deltas position f s n a b Hsearch Hs Ha).
Qed.

(** X11.  An item whose one delta is an [Added] or a [Deleted]: the value
    printed is the one the delta carries, not the item, under the marker of
    the delta.  After a deleted value the counter of the level is one lower;
    after an added value it is put back up, so that an added value does not
    count as a member of the left container. *)
Theorem processItem_added_deleted (v : value) (deltas : list Delta)
  (position p : Position) (x : value) (f : AsciiFormatter) (s : list Z)
  (n : Z) (a : list bool) (b : bool) :
  size f = s ++ [n] -> inArray f = a ++ [b] ->
  let lines :=
    value_lines (config f) b (length (path f)) (Position_String position) x
      (after_value n) in
  (searchDeltas deltas position = [Added p x] ->
   exists f',
     processItem v deltas position f = Return None f' /\
     printed f f' (lines_text (config f) AsciiAdded lines)
       (s ++ [int_wrap (after_value n + 1)]) /\
     (int_min <= n <= int_max -> size f' = size f)) /\
  (searchDeltas deltas position = [Deleted p x] ->
   exists f',
     processItem v deltas position f = Return None f' /\
     printed f f' (lines_text (config f) AsciiDeleted lines)
       (s ++ [after_value n])).
Proof.
  intros Hs Ha lines. split; intros Hsearch;
    rewrite processItem_eq, Hsearch; cbv zeta;
    match goal with
    | |- context [0 <? len [?d]] => change (0 <? len [d]) with true
    end; cbv iota; rewrite for_each_return_single; simpl.
  - destruct (printRecursive_lines x (Position_String position) AsciiAdded
                f s n a b Hs Ha)
      as (f1 & Hrun & Hb1 & Hs1 & Hp1 & Ha1 & Hc1 & Hl1).
    erewrite bind_Return by exact Hrun.
    erewrite bind_Return by (by eapply last_size_run).
    erewrite bind_Return by (by eapply set_last_size_run).
    eexists. split; [reflexivity|]. split.
    + unfold printed. simpl. done.
    + intros Hn. simpl. rewrite Hs. f_equal. f_equal.
      unfold after_value. rewrite int_wrap_back. by apply int_wrap_id.
  - destruct (printRecursive_lines x (Position_String position) AsciiDeleted
                f s n a b Hs Ha) as (f1 & Hrun & Hpr).
    erewrite bind_Return by exact Hrun.
    exists f1. split; [reflexivity|exact Hpr].
Qed.

(** The first matched delta does not fit the item: an [Object] for what is
    no map, an [Array] for what is no slice, or a [Moved]. *)
Definition misfit (d : Delta) (v : value) : bool :=
  match d, v with
  | Object _ _, VMap _ => false
  | Object _ _, _ => true
  | Array _ _, VSlice _ => false
  | Array _ _, _ => true
  | Moved _ _ _, _ => true
  | _, _ => false
  end.

(** X12.  When the first delta found for an item does not fit it,
    [processItem] returns an error at once: nothing is printed for the
    item, not even the item itself, the counter of the level is not
    lowered, and the deltas found after it are not looked at. *)
Theorem processItem_misfit (v : value) (deltas rest : list Delta)
  (position : Position) (d : Delta) (f : AsciiFormatter) :
  searchDeltas deltas position = d :: rest ->
  misfit d v = true ->
  processItem v deltas position f
  = Return
      (Some (errors_New
               match d with
               | Moved _ _ _ => "Unknown Delta type detected"
               | _ => "Type mismatch"
               end)) f.
Proof.
  intros Hsearch Hd. rewrite processItem_eq, Hsearch. cbv zeta.
  replace (0 <? len (d :: rest)) with true
    by (symmetry; apply Z.ltb_lt; unfold len; simpl; lia).
  cbv iota. simpl.
  destruct d; try discriminate Hd; destruct v; try discriminate Hd;
    reflexivity.
Qed.

(** ** [Format] returns *)

(** Inside an array an added value carries an index: [processArray] asserts
    it. *)
Definition indexed (d : Delta) : bool :=
  match d with
  | Added (Name _) _ => false
  | _ => true
  end.

(** The deltas of every [Array], at any depth, are indexed. *)
Fixpoint positioned (d : Delta) : bool :=
  match d with
  | Object _ deltas => forallb positioned deltas
  | Array _ deltas => forallb indexed deltas && forallb positioned deltas
  | _ => true
  end.

(** [f'] is [f] with text appended to the output, and with another counter
    for the innermost level, above the counters [s]. *)
Definition appended (f f' : AsciiFormatter) (s : list Z) : Prop :=
  exists out n', printed f f' out (s ++ [n']).

(** A method that returns from every formatter inside a container, having
    only appended to the output and moved the counter of the level. *)
Definition steady {A} (m : Fmt A) : Prop :=
  forall f s n a b,
    size f = s ++ [n] -> inArray f = a ++ [b] ->
    exists r f', m f = Return r f' /\ appended f f' s.

Lemma appended_refl (f : AsciiFormatter) (s : list Z) (n : Z) :
  size f = s ++ [n] -> appended f f s.
Proof.
  intros Hs. exists "", n. rewrite <- Hs. apply printed_nothing.
Qed.

Lemma appended_trans (f f1 f2 : AsciiFormatter) (s : list Z) :
  appended f f1 s -> appended f1 f2 s -> appended f f2 s.
Proof.
  intros (out1 & n1 & Hb1 & Hs1 & Hp1 & Ha1 & Hc1 & Hl1)
         (out2 & n2 & Hb2 & Hs2 & Hp2 & Ha2 & Hc2 & Hl2).
  exists (out1 +:+ out2), n2. unfold printed.
  rewrite Hb2, Hb1, string_app_assoc. repeat split; congruence.
Qed.

Lemma steady_ret {A} (r : A) : steady (ret r).
Proof.
  intros f s n a b Hs Ha. exists r, f. split; [reflexivity|].
  by eapply appended_refl.
Qed.

Lemma steady_bind {A B} (m : Fmt A) (k : A -> Fmt B) :
  steady m -> (forall x, steady (k x)) -> steady (bind m k).
Proof.
  intros Hm Hk f s n a b Hs Ha.
  destruct (Hm f s n a b Hs Ha) as (x & f1 & Hrun1 & Happ1).
  pose proof Happ1 as (out1 & n1 & Hb1 & Hs1 & Hp1 & Ha1 & Hc1 & Hl1).
  destruct (Hk x f1 s n1 a b) as (r & f2 & Hrun2 & Happ2);
    [congruence..|].
  exists r, f2. split.
  - by erewrite bind_Return by exact Hrun1.
  - by eapply appended_trans.
Qed.

Lemma steady_for_each {A} (l : list A) (body : A -> Fmt unit) :
  (forall x, x ∈ l -> steady (body x)) -> steady (for_each l body).
Proof.
  induction l as [|x l IH]; intros Hbody; simpl.
  - apply steady_ret.
  - apply steady_bind; [apply Hbody, list_elem_of_here|].
    intros _. apply IH. intros y Hy. by apply Hbody, list_elem_of_further.
Qed.

Lemma steady_for_each_return {A} (l : list A)
  (body : A -> Fmt (option error)) :
  (forall x, x ∈ l -> steady (body x)) -> steady (for_each_return l body).
Proof.
  induction l as [|x l IH]; intros Hbody; simpl.
  - apply steady_ret.
  - apply steady_bind; [apply Hbody, list_elem_of_here|].
    intros [e|]; [apply steady_ret|].
    apply IH. intros y Hy. by apply Hbody, list_elem_of_further.
Qed.

Lemma steady_printRecursive (name : string) (v : value) (marker_ : string) :
  steady (printRecursive name v marker_).
Proof.
  intros f s n a b Hs Ha.
  destruct (printRecursive_lines v name marker_ f s n a b Hs Ha)
    as (f' & Hrun & Hpr).
  exists tt, f'. split; [exact Hrun|]. by eexists _, _.
Qed.

Lemma steady_last_size : steady last_size.
Proof.
  intros f s n a b Hs Ha. exists n, f.
  split; [by eapply last_size_run | by eapply appended_refl].
Qed.

Lemma steady_set_last_size (m : Z) : steady (set_last_size m).
Proof.
  intros f s n a b Hs Ha. eexists tt, _.
  split; [by eapply set_last_size_run|].
  exists "", m. unfold printed. simpl. by rewrite string_app_nil_r.
Qed.

(** A container between its brackets. *)
Lemma steady_container {A B} (name pushed opening closing marker_ : string)
  (k : Z) (c : bool) (inner : Fmt A) (r : B) :
  steady inner ->
  steady
    (newLine marker_ ;; printKey name ;; print opening ;; closeLine ;;
     push pushed k c ;;
     inner ;;
     pop ;; newLine marker_ ;; print closing ;; printComma ;; closeLine ;;
     ret r).
Proof.
  intros Hinner f s n a b Hs Ha.
  destruct (open_run name pushed opening marker_ k c f a b Ha)
    as (f1 & Hopen & Hb1 & Hp1 & Hs1 & Ha1 & Hc1 & Hl1).
  destruct (Hinner f1 (s ++ [n]) k (a ++ [b]) c)
    as (x & f2 & Hrun & out & k' & Hb2 & Hs2 & Hp2 & Ha2 & Hc2 & Hl2);
    [congruence..|].
  destruct (close_run closing marker_ f2 (path f) pushed s n k' a b c)
    as (f3 & Hclose & Hb3 & Hp3 & Hs3 & Ha3 & Hc3 & Hl3); [congruence..|].
  exists r, f3. split.
  - rewrite Hopen. erewrite bind_Return by exact Hrun.
    revert Hclose. unfold bind.
    destruct (pop f2) as [[] g1|]; [|discriminate].
    destruct (newLine marker_ g1) as [[] g2|]; [|discriminate].
    destruct (print closing g2) as [[] g3|]; [|discriminate].
    destruct (printComma g3) as [[] g4|]; [|discriminate].
    destruct (closeLine g4) as [[] g5|]; [|discriminate].
    by intros [= ->].
  - eexists _, (after_value n). unfold printed.
    rewrite Hb3, Hb2, Hb1, !string_app_assoc.
    repeat split; congruence.
Qed.
Lemma steady_printAdded (d : Delta) : steady (printAdded d).
Proof.
  destruct d; try apply steady_ret. apply steady_printRecursive.
Qed.

Lemma steady_printAddedBeyond (array : list value) (d : Delta) :
  indexed d = true -> steady (printAddedBeyond array d).
Proof.
  intros Hd. destruct d as [| |[name|i] x| | | |]; try apply steady_ret;
    [discriminate Hd|].
  simpl. destruct (i <? len array); [apply steady_ret|].
  apply steady_printRecursive.
Qed.

Lemma steady_processItem (v : value) (deltas : list Delta)
  (position : Position) :
  (forall d, d ∈ deltas -> forall v name, steady (processDelta d v name)) ->
  steady (processItem v deltas position).
Proof.
  intros Hdeltas. rewrite processItem_eq. cbv zeta.
  destruct (0 <? len (searchDeltas deltas position)).
  - apply steady_for_each_return. intros d Hd.
    apply Hdeltas. unfold searchDeltas in Hd.
    by apply list_elem_of_filter in Hd as [_ Hd].
  - apply steady_bind; [apply steady_printRecursive|].
    intros _. apply steady_ret.
Qed.

Lemma steady_processObject (object : list (string * value))
  (deltas : list Delta) :
  (forall d, d ∈ deltas -> forall v name, steady (processDelta d v name)) ->
  steady (processObject object deltas).
Proof.
  intros Hdeltas. rewrite processObject_eq.
  apply steady_bind.
  - apply steady_for_each. intros name _.
    apply steady_bind; [by apply steady_processItem|].
    intros _. apply steady_ret.
  - intros _. apply steady_bind.
    + apply steady_for_each. intros d _. apply steady_printAdded.
    + intros _. apply steady_ret.
Qed.

Lemma steady_processArray (array : list value) (deltas : list Delta) :
  forallb indexed deltas = true ->
  (forall d, d ∈ deltas -> forall v name, steady (processDelta d v name)) ->
  steady (processArray array deltas).
Proof.
  intros Hindexed Hdeltas. rewrite processArray_eq.
  apply steady_bind.
  - apply steady_for_each. intros iv _.
    apply steady_bind; [by apply steady_processItem|].
    intros _. apply steady_ret.
  - intros _. apply steady_bind.
    + apply steady_for_each. intros d Hd.
      apply steady_printAddedBeyond.
      rewrite forallb_forall in Hindexed. apply Hindexed.
      by apply list_elem_of_In.
    + intros _. apply steady_ret.
Qed.

Lemma steady_changed (name : string) (old new : value) :
  steady
    (savedSize <- last_size ;;
     printRecursive name old AsciiDeleted ;;
     set_last_size savedSize ;;
     printRecursive name new AsciiAdded ;;
     ret (@None error)).
Proof.
  apply steady_bind; [apply steady_last_size|]. intros savedSize.
  apply steady_bind; [apply steady_printRecursive|]. intros _.
  apply steady_bind; [apply steady_set_last_size|]. intros _.
  apply steady_bind; [apply steady_printRecursive|]. intros _.
  apply steady_ret.
Qed.

Lemma steady_processDelta (d : Delta) :
  positioned d = true -> forall v name, steady (processDelta d v name).
Proof.
  induction d as [p deltas IH | p deltas IH | p x | p o n | p o n | p x
                 | pre post x] using Delta_ind';
    intros Hd v name.
  - assert (Hdeltas : forall d, d ∈ deltas ->
                        forall v name, steady (processDelta d v name)).
    { intros d Hin. rewrite Forall_forall in IH. apply (IH d Hin).
      simpl in Hd. rewrite forallb_forall in Hd.
      by apply Hd, list_elem_of_In. }
    destruct v as [| | | | |o]; try apply steady_ret.
    rewrite processDelta_Object.
    apply steady_container. by apply steady_processObject.
  - simpl in Hd. apply andb_prop in Hd as [Hindexed Hd].
    assert (Hdeltas : forall d, d ∈ deltas ->
                        forall v name, steady (processDelta d v name)).
    { intros d Hin. rewrite Forall_forall in IH. apply (IH d Hin).
      rewrite forallb_forall in Hd. by apply Hd, list_elem_of_In. }
    destruct v as [| | | |items|]; try apply steady_ret.
    rewrite processDelta_Array.
    apply steady_container. by apply steady_processArray.
  - simpl.
    apply steady_bind; [apply steady_printRecursive|]. intros _.
    apply steady_bind; [apply steady_last_size|]. intros k.
    apply steady_bind; [apply steady_set_last_size|]. intros _.
    apply steady_ret.
  - apply steady_changed.
  - apply steady_changed.
  - simpl. apply steady_bind; [apply steady_printRecursive|]. intros _.
    apply steady_ret.
  - apply steady_ret.
Qed.

Lemma steady_deltas (deltas : list Delta) :
  forallb positioned deltas = true ->
  forall d, d ∈ deltas -> forall v name, steady (processDelta d v name).
Proof.
  intros Hall d Hin. apply steady_processDelta.
  rewrite forallb_forall in Hall. by apply Hall, list_elem_of_In.
Qed.

Lemma addLineWith_run (marker_ value_ : string) (f : AsciiFormatter) :
  addLineWith marker_ value_ f
  = Return tt
      (set_buffer
         (buffer f +:+
          rendered_line (config f) marker_ (length (path f)) value_)
         (set_line
            (Some {| marker := marker_; indent := length (path f);
                     line_buffer := value_ |}) f)).
Proof.
  unfold addLineWith.
  erewrite bind_Return by reflexivity.
  erewrite bind_Return by reflexivity.
  by erewrite closeLine_run by reflexivity.
Qed.

Lemma rendered_line_root (cfg : AsciiFormatterConfig) (content : string) :
  rendered_line cfg AsciiSame 0 content = " " +:+ content +:+ newline.
Proof. reflexivity. Qed.

(** The formatter inside the root, once [Format] has written the opening
    bracket. *)
Definition root_state (opening : string) (k : Z) (c : bool)
  (f : AsciiFormatter) : AsciiFormatter :=
  set_stacks ["ROOT"] [k] [c]
    (set_buffer
       (rendered_line (config f) AsciiSame 0 opening)
       (set_line
          (Some {| marker := AsciiSame; indent := 0;
                   line_buffer := opening |}) (reset f))).

(** The root container between its brackets, given what is printed
    inside. *)
Lemma root_printed {A} (opening closing body : string) (k k' : Z) (c : bool)
  (inner : Fmt A) (r : A) (f g : AsciiFormatter) :
  inner (root_state opening k c f) = Return r g ->
  printed (root_state opening k c f) g body ([] ++ [k']) ->
  exists f',
    (addLineWith AsciiSame opening ;;
     push "ROOT" k c ;;
     inner ;;
     pop ;;
     addLineWith AsciiSame closing) (reset f)
    = Return tt f' /\
    buffer f'
    = " " +:+ opening +:+ newline +:+ body +:+ " " +:+ closing +:+ newline /\
    path f' = [] /\ size f' = [] /\ inArray f' = [] /\
    config f' = config f /\ left f' = left f.
Proof.
  intros Hrun (Hb2 & Hs2 & Hp2 & Ha2 & Hc2 & Hl2).
  eexists.
  erewrite bind_Return by apply addLineWith_run.
  erewrite bind_Return by reflexivity.
  erewrite bind_Return by exact Hrun.
  erewrite bind_Return
    by (eapply (pop_run g [] "ROOT" [] k' [] c);
        [exact Hp2|exact Hs2|exact Ha2]).
  rewrite addLineWith_run. split; [reflexivity|].
  simpl. rewrite Hb2, Hc2. simpl.
  rewrite !rendered_line_root, !string_app_assoc. repeat split; done.
Qed.

(** The root container between its brackets. *)
Lemma root_run (opening closing : string) (k : Z) (c : bool)
  (inner : Fmt (option error)) (f : AsciiFormatter) :
  steady inner ->
  exists body f',
    (addLineWith AsciiSame opening ;;
     push "ROOT" k c ;;
     inner ;;
     pop ;;
     addLineWith AsciiSame closing) (reset f)
    = Return tt f' /\
    buffer f'
    = " " +:+ opening +:+ newline +:+ body +:+ " " +:+ closing +:+ newline /\
    path f' = [] /\ size f' = [] /\ inArray f' = [] /\
    config f' = config f /\ left f' = left f.
Proof.
  intros Hinner.
  destruct (Hinner (root_state opening k c f) [] k [] c eq_refl eq_refl)
    as (r & g & Hrun & body & k' & Hpr).
  exists body. by eapply root_printed.
Qed.

(** X13.  Whatever the formatter held before, [Format] returns for a map
    or a slice and deltas whose array members are indexed: it does not
    panic, the error is nil, and the result is what the buffer holds, a
    text between an opening and a closing bracket line of the root, both
    unmarked and unindented; the stacks are empty again. *)
Theorem AsciiFormatter_Format_returns (deltas : list Delta)
  (f : AsciiFormatter) :
  forallb positioned deltas = true ->
  (is_map (left f) = false -> forallb indexed deltas = true) ->
  is_container (left f) = true ->
  let opening := if is_map (left f) then "{" else "[" in
  let closing := if is_map (left f) then "}" else "]" in
  exists body f',
    AsciiFormatter_Format (mkDiff deltas) f
    = Return
        (" " +:+ opening +:+ newline +:+ body +:+ " " +:+ closing +:+ newline,
         None) f' /\
    buffer f'
    = " " +:+ opening +:+ newline +:+ body +:+ " " +:+ closing +:+ newline /\
    path f' = [] /\ size f' = [] /\ inArray f' = [] /\
    config f' = config f /\ left f' = left f.
Proof.
  intros Hpos Hidx Hc. cbv zeta.
  unfold AsciiFormatter_Format.
  erewrite bind_Return by reflexivity.
  erewrite bind_Return by reflexivity.
  erewrite bind_Return by reflexivity.
  change (set_stacks [] [] [] (set_buffer "" f)) with (reset f).
  change (left (reset f)) with (left f).
  destruct (left f) as [| | | |items|members] eqn:Hleft;
    try discriminate Hc; unfold formatArray, formatObject.
  - destruct (root_run "[" "]" (len items) true
                (processArray items deltas) f)
      as (body & f' & Hrun & Hb & Hrest).
    { apply steady_processArray; [|by apply steady_deltas].
      by apply Hidx. }
    exists body, f'.
    assert (Hformat : formatArray items (mkDiff deltas) (reset f)
                      = Return tt f') by exact Hrun.
    erewrite bind_Return by exact Hformat.
    erewrite bind_Return by reflexivity.
    unfold ret. rewrite Hb, Hleft in *.
    split; [reflexivity|]. split; [reflexivity|]. exact Hrest.
  - destruct (root_run "{" "}" (len members) false
                (processObject members deltas) f)
      as (body & f' & Hrun & Hb & Hrest).
    { apply steady_processObject. by apply steady_deltas. }
    exists body, f'.
    assert (Hformat : formatObject members (mkDiff deltas) (reset f)
                      = Return tt f') by exact Hrun.
    erewrite bind_Return by exact Hformat.
    erewrite bind_Return by reflexivity.
    unfold ret. rewrite Hb, Hleft in *.
    split; [reflexivity|]. split; [reflexivity|]. exact Hrest.
Qed.

(** ** When [Format] panics *)

(** X14.  A nil diff makes [Format] panic on a map or a slice, once the
    opening bracket is written: the deltas are asked of a nil interface. *)
Theorem AsciiFormatter_Format_nil_diff (f : AsciiFormatter) :
  is_container (left f) = true ->
  AsciiFormatter_Format nilDiff f = Panics NilDereference.
Proof.
  intros Hc. unfold AsciiFormatter_Format.
  erewrite bind_Return by reflexivity.
  erewrite bind_Return by reflexivity.
  erewrite bind_Return by reflexivity.
  change (left (set_stacks [] [] [] (set_buffer "" f))) with (left f).
  destruct (left f); try discriminate Hc;
    unfold formatArray, formatObject;
    unfold bind at 1; unfold bind at 1; rewrite addLineWith_run;
    reflexivity.
Qed.

Lemma bind_Panics {A B} (m : Fmt A) (k : A -> Fmt B) (f : AsciiFormatter)
  (p : panic) :
  m f = Panics p -> bind m k f = Panics p.
Proof. intros Hm. unfold bind. by rewrite Hm. Qed.

Lemma printAddedBeyond_panics (array : list value) (deltas : list Delta) :
  forallb indexed deltas = false ->
  forall f s n a b,
    size f = s ++ [n] -> inArray f = a ++ [b] ->
    for_each deltas (printAddedBeyond array) f = Panics TypeAssertion.
Proof.
  induction deltas as [|d deltas IH]; intros Hd f s n a b Hs Ha;
    [discriminate Hd|].
  simpl in Hd. simpl.
  destruct (indexed d) eqn:Hi.
  - destruct (steady_printAddedBeyond array d Hi f s n a b Hs Ha)
      as ([] & f1 & Hrun & out & n1 & Hb1 & Hs1 & Hp1 & Ha1 & Hc1 & Hl1).
    erewrite bind_Return by exact Hrun.
    apply (IH Hd f1 s n1 a b); congruence.
  - destruct d as [| |[name|i] x| | | |]; try discriminate Hi.
    reflexivity.
Qed.

(** X15.  A slice whose deltas hold an added value under a name, not an
    index, makes [Format] panic: the items of the slice are printed first,
    and the loop over the added values then asserts an index. *)
Theorem AsciiFormatter_Format_named_in_slice (deltas : list Delta)
  (items : list value) (f : AsciiFormatter) :
  left f = VSlice items ->
  forallb positioned deltas = true ->
  forallb indexed deltas = false ->
  AsciiFormatter_Format (mkDiff deltas) f = Panics TypeAssertion.
Proof.
  intros Hleft Hpos Hidx. unfold AsciiFormatter_Format.
  erewrite bind_Return by reflexivity.
  erewrite bind_Return by reflexivity.
  erewrite bind_Return by reflexivity.
  change (left (set_stacks [] [] [] (set_buffer "" f))) with (left f).
  rewrite Hleft. apply bind_Panics. unfold formatArray.
  erewrite bind_Return by apply addLineWith_run.
  erewrite bind_Return by reflexivity.
  erewrite bind_Return by reflexivity.
  apply bind_Panics. rewrite processArray_eq.
  match goal with
  | |- bind (for_each ?l ?body) _ ?st = _ =>
      destruct (steady_for_each l body) with (f := st)
        (s := @nil Z) (n := len items) (a := @nil bool) (b := true)
        as ([] & f1 & Hrun & out & n1 & Hb1 & Hs1 & Hp1 & Ha1 & Hc1 & Hl1);
        [|reflexivity|reflexivity|]
  end.
  { intros iv _. apply steady_bind; [|intros _; apply steady_ret].
    apply steady_processItem. by apply steady_deltas. }
  erewrite bind_Return by exact Hrun.
  apply bind_Panics.
  apply (printAddedBeyond_panics items deltas Hidx f1 [] n1 [] true);
    [exact Hs1|by rewrite Ha1].
Qed.

Lemma bind_same {A B} (m : Fmt A) (k : A -> Fmt B) (f g : AsciiFormatter) :
  m f = m g -> bind m k f = bind m k g.
Proof. intros Hm. unfold bind. by rewrite Hm. Qed.

(** X16.  [Format] starts afresh: what it returns for a map or a slice,
    and the formatter it leaves, depend on the left value and the
    configuration alone, not on what an earlier call left in the buffer,
    the stacks or the line. *)
Theorem AsciiFormatter_Format_afresh (df : Diff) (f g : AsciiFormatter) :
  left f = left g -> config f = config g ->
  is_container (left f) = true ->
  AsciiFormatter_Format df f = AsciiFormatter_Format df g.
Proof.
  intros Hl Hcfg Hc. unfold AsciiFormatter_Format.
  do 3 (erewrite bind_Return by reflexivity). symmetry.
  do 3 (erewrite bind_Return by reflexivity). symmetry.
  change (left (set_stacks [] [] [] (set_buffer "" f))) with (left f).
  change (left (set_stacks [] [] [] (set_buffer "" g))) with (left g).
  rewrite <- Hl.
  assert (Hstart : forall value_,
    addLineWith AsciiSame value_ (set_stacks [] [] [] (set_buffer "" f))
    = addLineWith AsciiSame value_ (set_stacks [] [] [] (set_buffer "" g))).
  { intros value_. rewrite !addLineWith_run.
    unfold set_stacks, set_buffer, set_line. simpl. by rewrite Hl, Hcfg. }
  destruct (left f) as [| | | |items|members]; try discriminate Hc;
    apply bind_same; unfold formatArray, formatObject;
    apply bind_same, Hstart.
Qed.

(** ** The stacks *)

(** X17.  [pop] undoes [push]: the formatter is as it was before the two.
    On a formatter with an empty stack, [pop] panics. *)
Theorem pop_after_push (f : AsciiFormatter) :
  (forall name k c, (push name k c ;; pop) f = Return tt f) /\
  (path f = [] \/ size f = [] \/ inArray f = [] ->
   pop f = Panics SliceBoundsOutOfRange).
Proof.
  split.
  - intros name k c.
    erewrite bind_Return by reflexivity.
    erewrite (pop_run _ (path f) name (size f) k (inArray f) c)
      by reflexivity.
    by destruct f.
  - unfold pop. intros [Hp|[Hs|Ha]].
    + by rewrite Hp.
    + rewrite Hs. by destruct (path f).
    + rewrite Ha. by destruct (path f), (size f).
Qed.

(** ** Merging the right map into the left *)

(** The members of a map. *)
Definition members_of (v : value) : list (string * value) :=
  match v with
  | VMap m => m
  | _ => []
  end.

Lemma mapMerge_loop_lookup (rightMap leftMap : list (string * value))
  (key : string) :
  map_get
    (fold_left
       (fun leftMap (kv : string * value) =>
          match map_get leftMap kv.1 with
          | Some _ => leftMap
          | None => map_set leftMap kv.1 kv.2
          end)
       rightMap leftMap) key
  = match map_get leftMap key with
    | Some x => Some x
    | None => map_get rightMap key
    end.
Proof.
  revert leftMap.
  induction rightMap as [|[k x] r IH]; intros l; simpl.
  - by destruct (map_get l key).
  - destruct (map_get l k) as [y|] eqn:Hk.
    + rewrite IH. destruct (map_get l key) eqn:Hkey; [reflexivity|].
      destruct (decide (k = key)) as [->|]; [congruence|reflexivity].
    + rewrite IH, map_get_map_set.
      destruct (decide (k = key)) as [->|Hne]; [by rewrite Hk|done].
Qed.

(** X18.  What [mapMerge] leaves in the left map: under every key, the
    member the left map had, and where it had none, the member of the right
    map. *)
Theorem mapMerge_lookup (leftMap rightMap : list (string * value))
  (key : string) :
  map_get (members_of (mapMerge (VMap leftMap) (VMap rightMap))) key
  = match map_get leftMap key with
    | Some x => Some x
    | None => map_get rightMap key
    end.
Proof. apply mapMerge_loop_lookup. Qed.

Lemma mapMerge_loop_present (rightMap leftMap : list (string * value)) :
  (forall kv, kv ∈ rightMap -> map_get leftMap kv.1 <> None) ->
  fold_left
    (fun leftMap (kv : string * value) =>
       match map_get leftMap kv.1 with
       | Some _ => leftMap
       | None => map_set leftMap kv.1 kv.2
       end)
    rightMap leftMap
  = leftMap.
Proof.
  induction rightMap as [|[k x] r IH]; intros Hall; [reflexivity|].
  simpl. pose proof (Hall (k, x) (list_elem_of_here _ _)) as Hk. simpl in Hk.
  destruct (map_get leftMap k); [|done].
  apply IH. intros kv Hkv. by apply Hall, list_elem_of_further.
Qed.

Lemma map_get_member (m : list (string * value)) (kv : string * value) :
  kv ∈ m -> map_get m kv.1 <> None.
Proof.
  induction m as [|[k x] m IH]; intros Hin; [inversion Hin|].
  simpl. destruct (decide (k = kv.1)); [done|].
  apply IH. apply elem_of_cons in Hin as [->|Hin]; [done|exact Hin].
Qed.

(** X19.  Merging the same right value in a second time changes nothing. *)
Theorem mapMerge_again (left_ right_ : value) :
  mapMerge (mapMerge left_ right_) right_ = mapMerge left_ right_.
Proof.
  destruct left_ as [| | | | |l]; try reflexivity.
  destruct right_ as [| | | | |r]; try reflexivity.
  unfold mapMerge. f_equal.
  apply mapMerge_loop_present. intros kv Hkv.
  rewrite mapMerge_loop_lookup. destruct (map_get l kv.1); [done|].
  by apply map_get_member.
Qed.

(** ** The deltas by key *)

(** The key [deltaToMap] files a delta under, and what it files. *)
Definition delta_key (d : Delta) : string :=
  Position_String (search_position d).

Definition delta_entry (d : Delta) : list Delta :=
  match d with
  | Object _ deltas | Array _ deltas => deltas
  | _ => [d]
  end.

Lemma deltaToMap_snoc (deltas : list Delta) (d : Delta) :
  deltaToMap (deltas ++ [d])
  = <[delta_key d := delta_entry d]> (deltaToMap deltas).
Proof.
  unfold deltaToMap. rewrite fold_left_app. simpl. by destruct d.
Qed.

(** X20.  [deltaToMap] keeps one entry for a key: that of the last delta
    with the key, the deltas inside it for an [Object] or an [Array], the
    delta itself otherwise; a key no delta has is absent. *)
Theorem deltaToMap_lookup (deltas : list Delta) (key : string) :
  deltaToMap deltas !! key
  = delta_entry <$> last (filter (fun d => delta_key d = key) deltas).
Proof.
  induction deltas as [|d deltas IH] using rev_ind; [reflexivity|].
  rewrite deltaToMap_snoc, filter_app, filter_cons, filter_nil.
  destruct (decide (delta_key d = key)) as [<-|Hne].
  - by rewrite lookup_insert_eq, last_snoc.
  - by rewrite lookup_insert_ne, app_nil_r.
Qed.

(** ** What the printer writes *)

Lemma int_wrap_range (z : Z) : int_min <= int_wrap z <= int_max.
Proof.
  unfold int_wrap, int_min, int_max.
  pose proof (Z.mod_pos_bound (z + 2 ^ 63) (2 ^ 64) ltac:(lia)). lia.
Qed.

Lemma int_wrap_forth (n : Z) : int_wrap (int_wrap (n + 1) - 1) = int_wrap n.
Proof.
  unfold int_wrap.
  replace ((n + 1 + 2 ^ 63) `mod` 2 ^ 64 - 2 ^ 63 - 1 + 2 ^ 63)
    with ((n + 1 + 2 ^ 63) `mod` 2 ^ 64 - 1) by lia.
  rewrite Zminus_mod_idemp_l. f_equal. f_equal. lia.
Qed.

Lemma format_member_unkeyed deltaMap nested (v : list (string * value)) :
  (forall k, k ∈ v.*1 -> deltaMap !! k = None) ->
  forall p done,
    fold_left (format_member deltaMap nested) v (p, done) = (p, done ++ v).
Proof.
  induction v as [|[k obj] v IH]; intros Hkeys p done; cbn [fold_left].
  - by rewrite app_nil_r.
  - unfold format_member at 2.
    rewrite (Hkeys k) by (rewrite fmap_cons; apply list_elem_of_here).
    rewrite IH, <- app_assoc; [reflexivity|].
    intros k' Hk'. apply Hkeys. rewrite fmap_cons.
    by apply list_elem_of_further.
Qed.

(** X21.  When the deltas hold none of the keys of the merged left map,
    and so when there are no deltas, [Printer.Format] writes nothing and
    prints nothing; the left value is nonetheless merged with the right. *)
Theorem Printer_Format_unkeyed (p : Printer) (left_ right_ : value)
  (deltas : list Delta) :
  (forall k, k ∈ top_keys (mapMerge left_ right_) ->
             deltaToMap deltas !! k = None) ->
  let (p', after) := Printer_Format p left_ right_ deltas in
  w p' = w p /\ stdout p' = stdout p /\ lines p' = lines p /\
  after = mapMerge left_ right_.
Proof.
  intros Hkeys. rewrite Printer_Format_eq. cbv zeta.
  destruct (mapMerge left_ right_) as [| | | | |v]; try done.
  rewrite format_member_unkeyed by exact Hkeys. done.
Qed.

(** [p'] is [p] with more written and printed. *)
Definition written (p p' : Printer) : Prop :=
  indentation p' = indentation p /\ lines p' = lines p /\
  (exists out, w p' = w p +:+ out) /\
  (exists out, stdout p' = stdout p +:+ out).

Lemma written_refl (p : Printer) : written p p.
Proof.
  repeat split; exists ""; by rewrite string_app_nil_r.
Qed.

Lemma written_trans (p p1 p2 : Printer) :
  written p p1 -> written p1 p2 -> written p p2.
Proof.
  intros (Hi1 & Hl1 & [o1 Hw1] & [e1 Hs1]) (Hi2 & Hl2 & [o2 Hw2] & [e2 Hs2]).
  repeat split; try congruence.
  - exists (o1 +:+ o2). by rewrite Hw2, Hw1, string_app_assoc.
  - exists (e1 +:+ e2). by rewrite Hs2, Hs1, string_app_assoc.
Qed.

Lemma written_Fprintf (s : string) (p : Printer) : written p (Fprintf s p).
Proof.
  repeat split; simpl; [by exists s|].
  exists "". by rewrite string_app_nil_r.
Qed.

Lemma written_Printf (s : string) (p : Printer) : written p (Printf s p).
Proof.
  repeat split; simpl; [|by exists s].
  exists "". by rewrite string_app_nil_r.
Qed.

Lemma written_print_change (k : string) (obj : value) (d : Delta)
  (p : Printer) :
  written p (print_change k obj d p).
Proof.
  unfold print_change. destruct (getChange d) as [change out].
  eapply written_trans; [apply written_Fprintf|].
  eapply written_trans; [apply written_Fprintf|].
  eapply written_trans; [apply written_Printf|].
  destruct obj;
    first [ apply written_Fprintf
          | eapply written_trans; apply written_Fprintf ].
Qed.

Lemma written_changes (k : string) (obj : value) (ds : list Delta) :
  forall p, written p (fold_left (fun p d => print_change k obj d p) ds p).
Proof.
  induction ds as [|d ds IH]; intros p; simpl; [apply written_refl|].
  eapply written_trans; [apply written_print_change|apply IH].
Qed.

(** A nested call that gives the printer back with its indentation. *)
Definition restoring
  (e : string * option (Printer -> value -> list Delta -> Printer * value))
  : Prop :=
  forall call, e.2 = Some call ->
               forall p l ds,
                 int_min <= indentation p <= int_max ->
                 written p (call p l ds).1.

Lemma format_member_written deltaMap nested (v : list (string * value)) :
  Forall restoring nested ->
  forall p done,
    int_min <= indentation p <= int_max ->
    written p (fold_left (format_member deltaMap nested) v (p, done)).1.
Proof.
  intros Hnested.
  induction v as [|[k obj] v IH]; intros p done Hp; cbn [fold_left].
  - apply written_refl.
  - assert (Hstep : exists p' done',
      format_member deltaMap nested (p, done) (k, obj) = (p', done') /\
      written p p').
    { unfold format_member. destruct (deltaMap !! k) as [ds|].
      2:{ eexists _, _. split; [reflexivity|apply written_refl]. }
      pose proof (written_changes k obj ds p) as Hchanges.
      destruct (list_find _ nested) as [[i [k' [call|]]]|] eqn:Hfind.
      2,3: eexists _, _; split; [reflexivity|exact Hchanges].
      destruct obj; try (eexists _, _; split; [reflexivity|exact Hchanges]).
      apply list_find_Some in Hfind as (Hi & _ & _).
      apply list_elem_of_lookup_2 in Hi.
      rewrite Forall_forall in Hnested.
      pose proof (Hnested _ Hi call eq_refl
                    (fold_left (fun p d => print_change k (VMap members) d p)
                       ds p)
                    (VMap members) ds) as Hcall.
      destruct (call _ (VMap members) ds) as [p' leftK].
      eexists _, _. split; [reflexivity|].
      eapply written_trans; [exact Hchanges|]. apply Hcall.
      destruct Hchanges as (-> & _). exact Hp. }
    destruct Hstep as (p' & done' & -> & Hp').
    eapply written_trans; [exact Hp'|]. apply IH.
    destruct Hp' as (-> & _). exact Hp.
Qed.

Lemma Printer_Format_written (right_ : value) :
  forall p left_ deltas,
    int_min <= indentation p <= int_max ->
    written p (Printer_Format p left_ right_ deltas).1.
Proof.
  assert (Hrun : forall nested p l r ds,
    Forall restoring nested ->
    int_min <= indentation p <= int_max ->
    let p1 := set_indentation (int_wrap (indentation p + 1)) p in
    written p
      (let (p2, after) :=
         match mapMerge l r with
         | VMap v =>
             let (p2, v') :=
               fold_left (format_member (deltaToMap ds) nested) v
                 (p1, []) in
             (p2, VMap v')
         | _ => (p1, mapMerge l r)
         end in
       (set_indentation (int_wrap (indentation p2 - 1)) p2, after)).1).
  { intros nested p l r ds Hnested Hp p1.
    assert (Hend : forall p2, written p1 p2 ->
      written p (set_indentation (int_wrap (indentation p2 - 1)) p2)).
    { intros p2 (Hi & Hl & Hw & Hs). repeat split; try done. simpl.
      rewrite Hi. simpl. rewrite int_wrap_forth. by apply int_wrap_id. }
    destruct (mapMerge l r) as [| | | | |v];
      try (apply Hend, written_refl).
    pose proof (format_member_written (deltaToMap ds) nested v Hnested
                  p1 [] (int_wrap_range _)) as Hfold.
    destruct (fold_left _ v (p1, [])) as [p2 v']. by apply Hend. }
  induction right_ as [| b | n | s | items IH | rightMap IH] using value_ind';
    intros p left_ deltas Hp; rewrite Printer_Format_eq;
    try (by apply (Hrun []); [constructor|]).
  apply Hrun; [|exact Hp].
  clear p left_ deltas Hp.
  induction IH as [|[k rightK] l Hk _ IHl]; simpl; constructor; [|exact IHl].
  intros call Hcall p l0 ds Hp. simpl in *.
  destruct rightK; try discriminate Hcall.
  injection Hcall as <-. by apply Hk.
Qed.

(** X22.  [Printer.Format] gives the printer back with the indentation it
    had, at whatever depth it went and returned from, and with its line
    count; what was written and printed before stays, and the call only adds
    to it. *)
Theorem Printer_Format_restores (p : Printer) (left_ right_ : value)
  (deltas : list Delta) :
  int_min <= indentation p <= int_max ->
  let p' := (Printer_Format p left_ right_ deltas).1 in
  indentation p' = indentation p /\ lines p' = lines p /\
  (exists out, w p' = w p +:+ out) /\
  (exists out, stdout p' = stdout p +:+ out).
Proof. intros Hp. by apply Printer_Format_written. Qed.

(** ** An empty diff *)

(** The lines of a document printed from the root: the members of a map
    under their keys, by ascending key, the items of a slice under their
    indices, between the brackets of the root. *)
Definition document_lines (cfg : AsciiFormatterConfig) (v : value)
  : list (nat * string) :=
  match v with
  | VMap m =>
      (0%nat, "{") ::
      lines_in_turn
        (fun key => value_lines cfg false 1 key (map_index m key))
        (sortedKeys m) (len m) ++
      [(0%nat, "}")]
  | VSlice items =>
      (0%nat, "[") ::
      lines_in_turn
        (fun iv : Z * value => value_lines cfg true 1 (Itoa iv.1) iv.2)
        (imap (fun index v => (Z.of_nat index, v)) items) (len items) ++
      [(0%nat, "]")]
  | _ => []
  end.

Lemma document_text (cfg : AsciiFormatterConfig) (opening closing : string)
  (inside : list (nat * string)) :
  lines_text cfg AsciiSame ((0%nat, opening) :: inside ++ [(0%nat, closing)])
  = " " +:+ opening +:+ newline +:+ lines_text cfg AsciiSame inside +:+
    " " +:+ closing +:+ newline.
Proof.
  cbn [lines_text]. rewrite lines_text_app. cbn [lines_text].
  by rewrite !rendered_line_root, !string_app_assoc, string_app_nil_r.
Qed.

(** The members of the root printed without deltas. *)
Lemma members_no_deltas {A} (l : list A) (position : A -> Position)
  (item : A -> value) (k : Z) (c : bool) (opening : string)
  (after : Fmt unit) (f : AsciiFormatter) :
  (forall g, after g = Return tt g) ->
  exists g k',
    (for_each l
       (fun x => processItem (item x) [] (position x) ;; ret tt) ;;
     after ;;
     ret (@None error)) (root_state opening k c f)
    = Return None g /\
    printed (root_state opening k c f) g
      (lines_text (config f) AsciiSame
         (lines_in_turn
            (fun x =>
               value_lines (config f) c 1 (Position_String (position x))
                 (item x))
            l k))
      ([] ++ [k']).
Proof.
  intros Hafter.
  destruct (for_each_lines
              (fun x => processItem (item x) [] (position x) ;; ret tt)
              (fun x =>
                 value_lines (config f) c 1 (Position_String (position x))
                   (item x))
              AsciiSame (config f) ["ROOT"] [] [c] l)
    with (f := root_state opening k c f) (k := k)
    as (g & k' & Hrun & Hpr); try reflexivity.
  { intros x g j _ Hgc Hgp Hgs Hga.
    destruct (processItem_no_delta (item x) [] (position x) g [] j [] c
                eq_refl Hgs Hga) as (g' & Hrun & Hpr).
    exists g'. split; [by erewrite bind_Return by exact Hrun|].
    by rewrite Hgc, Hgp in Hpr. }
  exists g, k'. split; [|exact Hpr].
  erewrite bind_Return by exact Hrun.
  by erewrite bind_Return by apply Hafter.
Qed.

(** X23.  With a diff that holds no delta, [Format] returns the left
    document printed line by line, every line unmarked: the members of a
    map by ascending key, the items of a slice in their order, each value
    as [printRecursive] prints it. *)
Theorem AsciiFormatter_Format_no_deltas (f : AsciiFormatter) :
  is_container (left f) = true ->
  exists f',
    AsciiFormatter_Format (mkDiff []) f
    = Return
        (lines_text (config f) AsciiSame
           (document_lines (config f) (left f)), None) f' /\
    left f' = left f.
Proof.
  intros Hc. unfold AsciiFormatter_Format.
  do 3 (erewrite bind_Return by reflexivity).
  change (set_stacks [] [] [] (set_buffer "" f)) with (reset f).
  change (left (reset f)) with (left f).
  destruct (left f) as [| | | |items|members] eqn:Hleft;
    try discriminate Hc; unfold document_lines; rewrite document_text.
  - destruct (members_no_deltas
                (imap (fun index v => (Z.of_nat index, v)) items)
                (fun iv => Index iv.1) (fun iv => iv.2) (len items) true "["
                (for_each [] (printAddedBeyond items)) f)
      as (g & k' & Hrun & Hpr); [done|].
    rewrite <- processArray_eq in Hrun.
    destruct (root_printed "[" "]" _ (len items) k' true
                (processArray items []) None f g Hrun Hpr)
      as (f' & Hroot & Hb & Hrest).
    exists f'.
    assert (Hformat : formatArray items (mkDiff []) (reset f)
                      = Return tt f') by exact Hroot.
    erewrite bind_Return by exact Hformat.
    erewrite bind_Return by reflexivity.
    unfold ret. rewrite Hb. split; [reflexivity|].
    rewrite <- Hleft. apply Hrest.
  - destruct (members_no_deltas (sortedKeys members) Name
                (map_index members) (len members) false "{"
                (for_each [] printAdded) f)
      as (g & k' & Hrun & Hpr); [done|].
    rewrite <- processObject_eq in Hrun.
    destruct (root_printed "{" "}" _ (len members) k' false
                (processObject members []) None f g Hrun Hpr)
      as (f' & Hroot & Hb & Hrest).
    exists f'.
    assert (Hformat : formatObject members (mkDiff []) (reset f)
                      = Return tt f') by exact Hroot.
    erewrite bind_Return by exact Hformat.
    erewrite bind_Return by reflexivity.
    unfold ret. rewrite Hb. split; [reflexivity|].
    rewrite <- Hleft. apply Hrest.
Qed.

End Further.

(** * The further properties at work *)

Lemma example_versions_below (room : Z) :
  0 <= room <= 2 -> versions_below example_db 7 room.
Proof.
  intros Hroom. unfold versions_below, int_min, int_max.
  repeat constructor; simpl; lia.
Qed.



(** The database of the example after the restore. *)
Definition example_restored : DB :=
  (RestoreDashboardVersion example_restore 100 101 example_db).2.

Lemma RestoreDashboardVersion_preserves_witness :
  (forall i r, dashboard_version example_db !! i = Some r ->
               dashboard_version example_restored !! i = Some r) /\
  (unique_versions example_db -> unique_versions example_restored) /\
  (unique_ids example_db -> unique_ids example_restored) /\
  (keyed example_db -> keyed example_restored) /\
  (keyed example_db ->
   forall k, k <> 7 -> dashboard example_restored !! k
                       = dashboard example_db !! k).
Proof.
  apply (RestoreDashboardVersion_preserves example_restore
           (RestoreDashboardVersion example_restore 100 101 example_db).1.1
           100 101 example_db example_restored).
  vm_compute. reflexivity.
Defined.





Lemma RestoreDashboardVersion_twice_witness :
  exists m db1 db2,
    max_version example_db 7 m /\
    let first :=
      restored_document example_restore (with_id first_version)
        live_dashboard (m + 1) 100 in
    let second :=
      restored_document example_restore (with_id first_version)
        live_dashboard (m + 2) 102 in
    RestoreDashboardVersion example_restore 100 101 example_db
    = (with_result example_restore first, None, db1) /\
    RestoreDashboardVersion example_restore 102 103 db1
    = (with_result example_restore second, None, db2) /\
    dashboard_version db1
    = dashboard_version example_db
      ++ [restored_row example_restore first 101 example_db] /\
    dashboard_version db2
    = dashboard_version example_db
      ++ [restored_row example_restore first 101 example_db;
          restored_row example_restore second 103 db1].
Proof.
  apply (RestoreDashboardVersion_twice example_restore 100 101 102 103
           example_db first_version live_dashboard);
    [reflexivity|reflexivity|reflexivity|].
  apply example_versions_below. lia.
Defined.

(** The two versions of the example compared as a delta, by a renderer
    that writes its name: the command ends with that name as [Delta]. *)
Lemma CompareDashboardVersions_result_witness :
  exists cmd' out,
    CompareDashboardVersions (named_renderer "delta")
      (fun _ => named_renderer "json") (fun _ => named_renderer "basic")
      (example_compare 2) example_db
    = Returns (cmd', None) /\
    cmd' = set_Delta out (example_compare 2) /\ out = "delta".
Proof.
  pose (cmd' := set_Delta "delta" (example_compare 2)).
  destruct (CompareDashboardVersions_result (named_renderer "delta")
              (fun _ => named_renderer "json")
              (fun _ => named_renderer "basic")
              (example_compare 2) cmd' example_db None)
    as (original & newDashboard & left_ & jsonDiff & out & _ & _ & _ & Hout
        & Hcmd).
  - vm_compute. reflexivity.
  - exists cmd', out. split; [vm_compute; reflexivity|].
    split; [exact Hcmd|].
    destruct Hout as [[_ Hout]|[[Hjson _]|[Hbasic _]]].
    + by injection Hout as <-.
    + discriminate Hjson.
    + discriminate Hbasic.
Defined.

(** The first version of the example compared with itself. *)
Definition same_compare (diffType : Z) : CompareDashboardVersionsCommand :=
  {| Compare_DashboardId := 7; Compare_Original := 1; Compare_New := 1;
     Compare_DiffType := diffType; Compare_Delta := None |}.

Lemma CompareDashboardVersions_no_changes_witness :
  let run :=
    CompareDashboardVersions (named_renderer "delta")
      (fun _ => named_renderer "json") (fun _ => named_renderer "basic")
      (same_compare 2) example_db in
  (Compare_DiffType (same_compare 2) = DiffDelta ->
   run = render (same_compare 2) (named_renderer "delta" nilDiff)) /\
  (Compare_DiffType (same_compare 2) = DiffJSON ->
   run = render (same_compare 2) (named_renderer "json" nilDiff)) /\
  (Compare_DiffType (same_compare 2) = DiffBasic ->
   run = render (same_compare 2) (named_renderer "basic" nilDiff)) /\
  (~ recognized (Compare_DiffType (same_compare 2)) ->
   run = Returns (same_compare 2, Some ErrUnsupportedDiffType)).
Proof.
  apply (CompareDashboardVersions_no_changes (named_renderer "delta")
           (fun _ => named_renderer "json") (fun _ => named_renderer "basic")
           (same_compare 2) example_db (with_id first_version)
           (with_id first_version));
    [reflexivity|reflexivity|].
  apply Compare_refl.
Defined.

(** An added map printed inside the root. *)
Lemma printRecursive_renders_witness :
  exists f',
    printRecursive "b" (VMap [("c", num 2)]) AsciiAdded inside_root
    = Return tt f' /\
    buffer f'
    = buffer inside_root +:+
      lines_text (config inside_root) AsciiAdded
        (value_lines (config inside_root) false (length (path inside_root))
           "b" (VMap [("c", num 2)]) (after_value 1)) /\
    size f' = [] ++ [after_value 1] /\
    path f' = path inside_root /\ inArray f' = inArray inside_root /\
    config f' = config inside_root /\ left f' = left inside_root.
Proof.
  apply (printRecursive_renders "b" (VMap [("c", num 2)]) AsciiAdded
           inside_root [] 1 [] false); reflexivity.
Defined.

(** The member of the root without a delta. *)
Lemma processItem_unchanged_witness :
  exists f',
    processItem (num 1) [] (Name "a") inside_root = Return None f' /\
    buffer f'
    = buffer inside_root +:+
      lines_text (config inside_root) AsciiSame
        (value_lines (config inside_root) false (length (path inside_root))
           (Position_String (Name "a")) (num 1) (after_value 1)) /\
    size f' = [] ++ [after_value 1] /\
    path f' = path inside_root /\ inArray f' = inArray inside_root /\
    config f' = config inside_root /\ left f' = left inside_root.
Proof.
  apply (processItem_unchanged (num 1) [] (Name "a") inside_root [] 1 []
           false); reflexivity.
Defined.

(** The member of the root with an [Added] delta at its key. *)
Lemma processItem_added_deleted_witness :
  exists f',
    processItem (num 1) [Added (Name "a") (num 5)] (Name "a") inside_root
    = Return None f' /\
    printed inside_root f'
      (lines_text (config inside_root) AsciiAdded
         (value_lines (config inside_root) false
            (length (path inside_root)) (Position_String (Name "a")) (num 5)
            (after_value 1)))
      ([] ++ [int_wrap (after_value 1 + 1)]) /\
    (int_min <= 1 <= int_max -> size f' = size inside_root).
Proof.
  apply (proj1 (processItem_added_deleted (num 1) [Added (Name "a") (num 5)]
                  (Name "a") (Name "a") (num 5) inside_root [] 1 [] false
                  eq_refl eq_refl)).
  reflexivity.
Defined.

(** The member of the root, a number, with an [Object] delta at its key. *)
Lemma processItem_misfit_witness :
  processItem (num 1) [Object (Name "a") []] (Name "a") inside_root
  = Return (Some (errors_New "Type mismatch")) inside_root.
Proof.
  apply (processItem_misfit (num 1) [Object (Name "a") []] [] (Name "a")
           (Object (Name "a") []) inside_root); reflexivity.
Defined.

(** A formatter on the document [{"a": 1}] and one on the array [[1]]. *)
Definition example_formatter : AsciiFormatter :=
  NewAsciiFormatter (VMap [("a", num 1)]) AsciiFormatterDefaultConfig.

Definition array_formatter : AsciiFormatter :=
  NewAsciiFormatter (VSlice [num 1]) AsciiFormatterDefaultConfig.

Lemma AsciiFormatter_Format_returns_witness :
  exists body f',
    AsciiFormatter_Format (mkDiff [Modified (Name "a") (num 1) (num 2)])
      example_formatter
    = Return (" " +:+ "{" +:+ newline +:+ body +:+ " " +:+ "}" +:+ newline,
              None) f' /\
    buffer f'
    = " " +:+ "{" +:+ newline +:+ body +:+ " " +:+ "}" +:+ newline /\
    path f' = [] /\ size f' = [] /\ inArray f' = [] /\
    config f' = config example_formatter /\
    left f' = left example_formatter.
Proof.
  apply (AsciiFormatter_Format_returns
           [Modified (Name "a") (num 1) (num 2)] example_formatter);
    reflexivity.
Defined.

Lemma AsciiFormatter_Format_nil_diff_witness :
  AsciiFormatter_Format nilDiff example_formatter = Panics NilDereference.
Proof.
  apply (AsciiFormatter_Format_nil_diff example_formatter). reflexivity.
Defined.

Lemma AsciiFormatter_Format_named_in_slice_witness :
  AsciiFormatter_Format (mkDiff [Added (Name "x") (num 2)]) array_formatter
  = Panics TypeAssertion.
Proof.
  apply (AsciiFormatter_Format_named_in_slice [Added (Name "x") (num 2)]
           [num 1] array_formatter); reflexivity.
Defined.

(** A formatter in the middle of a run and a new one on the same
    document. *)
Lemma AsciiFormatter_Format_afresh_witness :
  AsciiFormatter_Format (mkDiff [Deleted (Name "a") (num 1)]) inside_root
  = AsciiFormatter_Format (mkDiff [Deleted (Name "a") (num 1)])
      example_formatter.
Proof.
  apply (AsciiFormatter_Format_afresh (mkDiff [Deleted (Name "a") (num 1)])
           inside_root example_formatter); reflexivity.
Defined.

Lemma AsciiFormatter_Format_no_deltas_witness :
  exists f',
    AsciiFormatter_Format (mkDiff []) example_formatter
    = Return
        (lines_text (config example_formatter) AsciiSame
           (document_lines (config example_formatter)
              (left example_formatter)), None) f' /\
    left f' = left example_formatter.
Proof.
  apply (AsciiFormatter_Format_no_deltas example_formatter). reflexivity.
Defined.

(** The printer on two maps, without deltas and with one. *)
Lemma Printer_Format_unkeyed_witness :
  let (p', after) :=
    Printer_Format NewPrinter (VMap [("a", num 1)]) (VMap [("b", num 2)]) [] in
  w p' = w NewPrinter /\ stdout p' = stdout NewPrinter /\
  lines p' = lines NewPrinter /\
  after = mapMerge (VMap [("a", num 1)]) (VMap [("b", num 2)]).
Proof.
  apply (Printer_Format_unkeyed NewPrinter (VMap [("a", num 1)])
           (VMap [("b", num 2)]) []).
  intros k _. apply lookup_empty.
Defined.

Lemma Printer_Format_restores_witness :
  let p' :=
    (Printer_Format NewPrinter (VMap [("a", num 1)]) (VMap [("a", num 2)])
       [Modified (Name "a") (num 1) (num 2)]).1 in
  indentation p' = indentation NewPrinter /\ lines p' = lines NewPrinter /\
  (exists out, w p' = w NewPrinter +:+ out) /\
  (exists out, stdout p' = stdout NewPrinter +:+ out).
Proof.
  apply (Printer_Format_restores NewPrinter (VMap [("a", num 1)])
           (VMap [("a", num 2)]) [Modified (Name "a") (num 1) (num 2)]).
  unfold int_min, int_max. simpl. lia.
Defined.
